(** * An iterator-based XML tokenizer: a shallow embedding of [mod.ts]

    The development follows the source file top to bottom: the emitted
    nodes, the [Tokens] constants, the tagged union [ParseState], the
    character classifiers, the one-character transition of [Parser.next],
    the [write]/[close]/[next] protocol of the [Parser] class, and then the
    properties of the tokenizer.

    A JavaScript string is a sequence of UTF-16 code units, and the parser
    only ever looks at code units ([charCodeAt], [String.fromCharCode]), so
    a string is modelled as the list of its code units, each a [Z].  An
    [Attributes] object is a finite map from strings to strings. *)

From stdpp Require Import gmap list strings.
From Stdlib Require Import ZArith Lia.

Local Open Scope Z_scope.

(** ** Strings *)

Abbreviation jsstring := (list Z).

(** The code units of an ASCII literal, used to write the source's string
    constants and the example inputs. *)
Definition str (s : string) : jsstring :=
  map (fun a => Z.of_N (Ascii.N_of_ascii a)) (String.list_ascii_of_string s).

(** [String.fromCharCode(c)]: a one-unit string; the argument goes through
    ToUint16. *)
Definition fromCharCode (c : Z) : jsstring := [c mod 65536].

(** [String.fromCodePoint(cp)]: a code point of the basic plane is one code
    unit, a supplementary one is a surrogate pair. *)
Definition fromCodePoint (cp : Z) : jsstring :=
  if cp <? 65536 then [cp]
  else [55296 + (cp - 65536) / 1024; 56320 + (cp - 65536) mod 1024].

(** [s.repeat(n)]. *)
Fixpoint js_repeat (s : jsstring) (n : nat) : jsstring :=
  match n with
  | O => []
  | S n' => s ++ js_repeat s n'
  end.

(** [s.startsWith(p)]. *)
Fixpoint startsWith (s p : jsstring) : bool :=
  match p, s with
  | [], _ => true
  | _ :: _, [] => false
  | x :: p', y :: s' => (x =? y) && startsWith s' p'
  end.

(** [s.toLowerCase()] on the letters A to Z; other code units are kept.  The
    parser compares the result with ['xml'] only, and no code unit outside
    A to Z is lowered to [x], [m] or [l] by the built-in. *)
Definition toLowerCase (s : jsstring) : jsstring :=
  map (fun c => if (65 <=? c) && (c <=? 90) then c + 32 else c) s.

(** [data.split('')]: one string per code unit. *)
Definition split_empty (data : jsstring) : list jsstring :=
  map (fun u => [u]) data.

(** [c.charCodeAt(0)]; the strings it is applied to have length one. *)
Definition charCodeAt0 (c : jsstring) : Z := hd 0 c.

(** ** Nodes *)

Abbreviation Attributes := (gmap (list Z) (list Z)).

Record Tag := mkTag {
  name : jsstring;
  empty : bool;
  attributes : Attributes;
}.

Record ProcessingInstruction := mkProcessingInstruction {
  pi_name : jsstring;
  pi_text : jsstring;
}.

Inductive Node :=
| TextNode (text : jsstring)
| XMLDeclNode (xmldecl : Attributes)
| OpenTagNode (opentag : Tag)
| CloseTagNode (closetag : jsstring)
| CommentNode (comment : jsstring)
| ProcessingInstructionNode (processinginstruction : ProcessingInstruction)
| CDataNode (cdata : jsstring).

(** ** Tokens *)

Module Tokens.
Definition TagOpen := 60.
Definition TagClose := 62.
Definition Equals := 61.
Definition Dash := 45.
Definition DoubleQuote := 34.
Definition SingleQuote := 39.
Definition Slash := 47.
Definition BackSlash := 92.
Definition QuestionMark := 63.
Definition ExclamationMark := 33.
Definition LeftSquareBracket := 91.
Definition RightSquareBracket := 93.
End Tokens.

(** ** Parse states

    The counters [dashes] and [brackets] are JavaScript numbers that start at
    0 and only grow by 1, so they are natural numbers. *)

Module ParseState.
Inductive t :=
| Text (text : jsstring)
| TagName (tagName : jsstring)
| TagEmpty (tagName : jsstring) (attributes : Attributes)
| Tag (tagName : jsstring) (attributes : Attributes)
| TagAttributeName (tagName : jsstring) (attributes : Attributes)
    (attributeName : jsstring)
| TagAttribute (tagName : jsstring) (attributes : Attributes)
    (attributeName : jsstring)
| TagAttributeValue (tagName : jsstring) (attributes : Attributes)
    (attributeName attributeValue : jsstring) (escaped : bool)
    (quotationMark : option Z)
| ClosingTagName (tagName : jsstring)
| ProcessingInstructionName (name : jsstring)
| ProcessingInstruction (name text : jsstring) (ending : bool)
| XMLDecl (attributes : Attributes)
| XMLDeclAttributeName (attributes : Attributes) (attributeName : jsstring)
| XMLDeclAttribute (attributes : Attributes)
    (attributeName attributeValue : jsstring)
| XMLDeclAttributeValue (attributes : Attributes)
    (attributeName attributeValue : jsstring) (escaped : bool)
    (quotationMark : option Z)
| XMLDeclEnd (attributes : Attributes)
| CommentStart (dashes : nat)
| Comment (dashes : nat) (text : jsstring)
| CDataStart (prologue : jsstring)
| CData (text : jsstring) (brackets : nat).

(** [state.state === ParseState.Type.Text] *)
Definition isText (s : t) : bool :=
  match s with Text _ => true | _ => false end.
End ParseState.

(** ** Errors

    One constructor per message of a [throw new Error(...)]; the argument is
    what the message is built from.  [RangeError] is not thrown by the
    program text but by the engine, when a call is given more arguments than
    it takes. *)

Inductive Error :=
| ParseIsClosed                                   (* 'parse is closed' *)
| UnexpectedEscapeCharacter (c : Z)               (* 'unexpected escape character: ' *)
| InvalidTagNameStartingCharacter (c : Z)         (* 'invalid tag name starting character: ' *)
| InvalidTagAttributeNameCharacter (c : Z)        (* 'invalid tag attribute name character: ' *)
| InvalidAttributeValueStartingCharacter (c : Z)  (* 'invalid attribute value starting character: ' *)
| InvalidProcessingInstructionCharacter (c : Z)   (* 'invalid processing instruction character: ' *)
| InvalidXmlDeclCharacter (c : Z)                 (* 'invalid xml decl character: ' *)
| InvalidXmlDeclAttributeNameCharacter (c : Z)    (* 'invalid xml decl attribute name character: ' *)
| InvalidCommentStartingCharacter (c : Z)         (* 'invalid comment starting character: ' *)
| MalformedCommentEndingSequence (dashes : nat)   (* 'malformed comment ending sequence: ' *)
| InvalidCommentCharacter (c : Z)                 (* 'invalid comment character: ' *)
| InvalidCdataStartingSequence (prologue : jsstring) (* 'invalid cdata starting sequence: <![' *)
| InvalidCdataCharacter (c : Z)                   (* 'invalid cdata character: ' *)
| UnexpectedEndOfStream                           (* 'unexpected end of stream' *)
| RangeError.                                     (* the engine's 'Maximum call stack size exceeded' *)

(** ** Character classifiers *)

Definition between (lo hi c : Z) : bool := (lo <=? c) && (c <=? hi).

Definition isNameStartChar (char : Z) : bool :=
  (char =? 58) ||
  between 65 90 char ||
  (char =? 95) ||
  between 97 122 char ||
  between 0xc0 0xd6 char ||
  between 0xd8 0xf6 char ||
  between 0xf8 0x2ff char ||
  between 0x370 0x37d char ||
  between 0x37f 0x1fff char ||
  between 0x200c 0x200d char ||
  between 0x2070 0x218f char ||
  between 0x2c00 0x2fef char ||
  between 0x3001 0xd7ff char ||
  between 0xf900 0xfdcf char ||
  between 0xfdf0 0xfffd char ||
  between 0x10000 0xeffff char.

Definition isNameChar (char : Z) : bool :=
  isNameStartChar char ||
  (char =? 45) ||
  (char =? 46) ||
  between 48 57 char ||
  (char =? 0xb7) ||
  between 0x300 0x36f char ||
  between 0x203f 0x2040 char.

Definition isChar (char : Z) : bool :=
  (char =? 9) ||
  (char =? 0xa) ||
  (char =? 0xd) ||
  between 0x20 0xd7ff char ||
  between 0xe000 0xfffd char ||
  between 0x10000 0x10ffff char.

Definition isWhiteSpace (char : Z) : bool :=
  (char =? 0x20) || (char =? 0x9) || (char =? 0xd) || (char =? 0xa).

Definition isQuotationMark (char : Z) : bool :=
  (char =? Tokens.DoubleQuote) || (char =? Tokens.SingleQuote).

Definition escapeChar (char : Z) : Error + jsstring :=
  if char =? 92 then inr [92]
  else if char =? 110 then inr [10]
  else if char =? 114 then inr [13]
  else inl (UnexpectedEscapeCharacter char).

(** ** The transition on one code unit

    The body of the [switch] in [Parser.next] for the current state and the
    code unit [c] just shifted off the buffer.  [Continue] is the [break]
    that goes on with the loop, [Return] is [return { value, done: false }],
    and [Throw] carries the state as the [throw] leaves it. *)

Inductive Step :=
| Continue (s : ParseState.t)
| Return (value : Node) (s : ParseState.t)
| Throw (e : Error) (s : ParseState.t).

(** Truthiness of [s.length] and of the optional [quotationMark]. *)
Definition has_length (s : jsstring) : bool := negb (length s =? 0)%nat.

Definition truthy (q : option Z) : bool :=
  match q with
  | Some n => negb (n =? 0)
  | None => false
  end.

(** [quotationMark ? c === quotationMark : isWhiteSpace(c)] *)
Definition ends_value (q : option Z) (c : Z) : bool :=
  match q with
  | Some n => if negb (n =? 0) then c =? n else isWhiteSpace c
  | None => isWhiteSpace c
  end.

(** [strict ? c === Tokens.SingleQuote : isQuotationMark(c)] *)
Definition opens_value (strict : bool) (c : Z) : bool :=
  if strict then c =? Tokens.SingleQuote else isQuotationMark c.

Definition step (strict : bool) (st : ParseState.t) (c : Z) : Step :=
  match st with
  | ParseState.Text text =>
      if c =? Tokens.TagOpen then
        if (0 <? length text)%nat
        then Return (TextNode text) (ParseState.TagName [])
        else Continue (ParseState.TagName [])
      else Continue (ParseState.Text (text ++ fromCharCode c))

  | ParseState.TagName tagName =>
      if has_length tagName then
        if isNameChar c then
          Continue (ParseState.TagName (tagName ++ fromCharCode c))
        else if isWhiteSpace c then
          Continue (ParseState.Tag tagName ∅)
        else if c =? Tokens.TagClose then
          Return (OpenTagNode (mkTag tagName false ∅)) (ParseState.Text [])
        else if c =? Tokens.Slash then
          Continue (ParseState.TagEmpty tagName ∅)
        else Continue st
      else
        if isNameStartChar c then
          Continue (ParseState.TagName (tagName ++ fromCharCode c))
        else if c =? Tokens.Slash then
          Continue (ParseState.ClosingTagName [])
        else if c =? Tokens.QuestionMark then
          Continue (ParseState.ProcessingInstructionName [])
        else if c =? Tokens.ExclamationMark then
          Continue (ParseState.CommentStart 0)
        else Throw (InvalidTagNameStartingCharacter c) st

  | ParseState.Tag tagName attributes =>
      if c =? Tokens.TagClose then
        Return (OpenTagNode (mkTag tagName false attributes)) (ParseState.Text [])
      else if isWhiteSpace c then Continue st
      else if isNameStartChar c then
        Continue (ParseState.TagAttributeName tagName attributes (fromCharCode c))
      else if c =? Tokens.Slash then
        Continue (ParseState.TagEmpty tagName ∅)
      else Throw (InvalidTagAttributeNameCharacter c) st

  | ParseState.TagEmpty tagName attributes =>
      if c =? Tokens.TagClose then
        Return (OpenTagNode (mkTag tagName true attributes)) (ParseState.Text [])
      else Continue st

  | ParseState.TagAttribute tagName attributes attributeName =>
      if isWhiteSpace c then Continue st
      else if c =? Tokens.Equals then
        Continue (ParseState.TagAttributeValue tagName attributes attributeName
                    [] false None)
      else Continue st

  | ParseState.TagAttributeName tagName attributes attributeName =>
      if isWhiteSpace c then
        Continue (ParseState.TagAttribute tagName attributes attributeName)
      else if c =? Tokens.Equals then
        Continue (ParseState.TagAttributeValue tagName attributes attributeName
                    [] false None)
      else if isNameChar c then
        Continue (ParseState.TagAttributeName tagName attributes
                    (attributeName ++ fromCharCode c))
      else Throw (InvalidTagAttributeNameCharacter c) st

  | ParseState.TagAttributeValue tagName attributes attributeName
      attributeValue escaped quotationMark =>
      if has_length attributeValue || truthy quotationMark then
        if escaped then
          match escapeChar c with
          | inl e => Throw e st
          | inr s =>
              Continue (ParseState.TagAttributeValue tagName attributes
                          attributeName (attributeValue ++ s) false quotationMark)
          end
        else if (c =? Tokens.BackSlash) && truthy quotationMark then
          Continue (ParseState.TagAttributeValue tagName attributes
                      attributeName attributeValue true quotationMark)
        else if ends_value quotationMark c then
          Continue (ParseState.Tag tagName
                      (<[attributeName := attributeValue]> attributes))
        else
          Continue (ParseState.TagAttributeValue tagName attributes
                      attributeName (attributeValue ++ fromCharCode c)
                      escaped quotationMark)
      else
        if isWhiteSpace c then Continue st
        else if opens_value strict c then
          Continue (ParseState.TagAttributeValue tagName attributes
                      attributeName attributeValue escaped (Some c))
        else if strict then
          Throw (InvalidAttributeValueStartingCharacter c) st
        else
          Continue (ParseState.TagAttributeValue tagName attributes
                      attributeName (attributeValue ++ fromCharCode c)
                      escaped quotationMark)

  | ParseState.ClosingTagName tagName =>
      if has_length tagName then
        if isNameChar c then
          Continue (ParseState.ClosingTagName (tagName ++ fromCharCode c))
        else if isWhiteSpace c then Continue st
        else if c =? Tokens.TagClose then
          Return (CloseTagNode tagName) (ParseState.Text [])
        else Continue st
      else
        if isNameStartChar c then
          Continue (ParseState.ClosingTagName (tagName ++ fromCharCode c))
        else Throw (InvalidTagNameStartingCharacter c) st

  | ParseState.ProcessingInstructionName name =>
      if isWhiteSpace c then
        if bool_decide (toLowerCase name = str "xml") then
          Continue (ParseState.XMLDecl ∅)
        else Continue (ParseState.ProcessingInstruction name [] false)
      else Continue (ParseState.ProcessingInstructionName (name ++ fromCharCode c))

  | ParseState.ProcessingInstruction name text ending =>
      if c =? Tokens.QuestionMark then
        if ending then
          Continue (ParseState.ProcessingInstruction name (text ++ str "?") ending)
        else Continue (ParseState.ProcessingInstruction name text true)
      else if ending && (c =? Tokens.TagClose) then
        Return (ProcessingInstructionNode (mkProcessingInstruction name text))
          (ParseState.Text [])
      else if strict && negb (isChar c) then
        Throw (InvalidProcessingInstructionCharacter c) st
      else
        let text1 := if ending then text ++ str "?" else text in
        Continue (ParseState.ProcessingInstruction name
                    (text1 ++ fromCharCode c) false)

  | ParseState.XMLDecl attributes =>
      if isWhiteSpace c then Continue st
      else if c =? Tokens.QuestionMark then
        Continue (ParseState.XMLDeclEnd attributes)
      else if isNameStartChar c then
        Continue (ParseState.XMLDeclAttributeName attributes (fromCharCode c))
      else Throw (InvalidXmlDeclCharacter c) st

  | ParseState.XMLDeclAttributeName attributes attributeName =>
      if isWhiteSpace c then
        Continue (ParseState.XMLDeclAttribute attributes attributeName [])
      else if c =? Tokens.Equals then
        Continue (ParseState.XMLDeclAttributeValue attributes attributeName
                    [] false None)
      else if isNameChar c then
        Continue (ParseState.XMLDeclAttributeName attributes
                    (attributeName ++ fromCharCode c))
      else Throw (InvalidXmlDeclAttributeNameCharacter c) st

  | ParseState.XMLDeclAttribute attributes attributeName attributeValue =>
      if isWhiteSpace c then Continue st
      else if c =? Tokens.Equals then
        Continue (ParseState.XMLDeclAttributeValue attributes attributeName
                    [] false None)
      else Continue st

  | ParseState.XMLDeclAttributeValue attributes attributeName attributeValue
      escaped quotationMark =>
      if has_length attributeValue || truthy quotationMark then
        if escaped then
          match escapeChar c with
          | inl e => Throw e st
          | inr s =>
              Continue (ParseState.XMLDeclAttributeValue attributes
                          attributeName (attributeValue ++ s) false quotationMark)
          end
        else if (c =? Tokens.BackSlash) && truthy quotationMark then
          Continue (ParseState.XMLDeclAttributeValue attributes attributeName
                      attributeValue true quotationMark)
        else if ends_value quotationMark c then
          Continue (ParseState.XMLDecl
                      (<[attributeName := attributeValue]> attributes))
        else
          Continue (ParseState.XMLDeclAttributeValue attributes attributeName
                      (attributeValue ++ fromCharCode c) escaped quotationMark)
      else
        if isWhiteSpace c then Continue st
        else if opens_value strict c then
          Continue (ParseState.XMLDeclAttributeValue attributes attributeName
                      attributeValue escaped (Some c))
        else if strict then
          Throw (InvalidAttributeValueStartingCharacter c) st
        else
          Continue (ParseState.XMLDeclAttributeValue attributes attributeName
                      (attributeValue ++ fromCharCode c) escaped quotationMark)

  | ParseState.XMLDeclEnd attributes =>
      if c =? Tokens.TagClose then
        Return (XMLDeclNode attributes) (ParseState.Text [])
      else Continue st

  | ParseState.CommentStart dashes =>
      if (dashes =? 0)%nat && (c =? Tokens.LeftSquareBracket) then
        Continue (ParseState.CDataStart [])
      else if c =? Tokens.Dash then
        if (2 <=? dashes + 1)%nat then Continue (ParseState.Comment 0 [])
        else Continue (ParseState.CommentStart (dashes + 1))
      else Throw (InvalidCommentStartingCharacter c) st

  | ParseState.Comment dashes text =>
      if c =? Tokens.Dash then
        if strict && negb (has_length text) then
          Throw (InvalidCommentStartingCharacter c) st
        else Continue (ParseState.Comment (dashes + 1) text)
      else if (c =? Tokens.TagClose) && (2 <=? dashes)%nat then
        if strict && (2 <? dashes)%nat then
          Throw (MalformedCommentEndingSequence dashes) st
        else
          Return (CommentNode (text ++ js_repeat (str "-") (dashes - 2)))
            (ParseState.Text [])
      else if strict && (c =? Tokens.Dash) then
        Throw (InvalidCommentStartingCharacter c) st
      else if strict && negb (isChar c) then
        Throw (InvalidCommentCharacter c) st
      else
        let text1 :=
          if negb (dashes =? 0)%nat then text ++ js_repeat (str "-") dashes
          else text in
        Continue (ParseState.Comment 0 (text1 ++ fromCharCode c))

  | ParseState.CDataStart prologue =>
      let prologue1 := prologue ++ fromCharCode c in
      if bool_decide (prologue1 = str "CDATA[") then
        Continue (ParseState.CData [] 0)
      else if negb (startsWith (str "CDATA[") prologue1) then
        Throw (InvalidCdataStartingSequence prologue1)
          (ParseState.CDataStart prologue1)
      else Continue (ParseState.CDataStart prologue1)

  | ParseState.CData text brackets =>
      if c =? Tokens.RightSquareBracket then
        Continue (ParseState.CData text (brackets + 1))
      else if (2 <=? brackets)%nat && (c =? Tokens.TagClose) then
        Return (CDataNode (text ++ js_repeat (str "]") (brackets - 2)))
          (ParseState.Text [])
      else if strict && negb (isChar c) then
        Throw (InvalidCdataCharacter c) st
      else
        let text1 :=
          if negb (brackets =? 0)%nat then text ++ js_repeat (str "]") brackets
          else text in
        Continue (ParseState.CData (text1 ++ fromCharCode c) 0)
  end.

(** ** The parser object

    The four private fields of [class Parser].  Every one of them is
    initialised per instance, by a field initialiser or by the constructor. *)

Record ParserOptions := mkParserOptions {
  options_strict : option bool;
}.

Record Parser := mkParser {
  state : ParseState.t;
  buffer : list Z;
  closed : bool;
  strict : bool;
}.

(** [new Parser(options)]; [!!options.strict]. *)
Definition new_Parser (options : ParserOptions) : Parser :=
  {| state := ParseState.Text [];
     buffer := [];
     closed := false;
     strict := default false (options_strict options) |}.

(** A method either returns or throws. *)
Definition bind {A B} (r : Error + A) (k : A -> Error + B) : Error + B :=
  match r with
  | inl e => inl e
  | inr a => k a
  end.

(** The most arguments one call may be given.  The language leaves the
    bound to the engine; this is the bound of V8 with its default stack, the
    engine that runs the repository's Deno tests.  Only the example of a
    single write that is too long depends on the number. *)
Definition max_arguments : Z := 125292.

(** [push(...units)] is one call with one argument per code unit. *)
Definition fits (units : list Z) : bool :=
  Z.of_nat (length units) <=? max_arguments.

(** [write(data)]: the code units of [data] go to the end of the buffer, all
    in one call of [push]; when they are more than a call takes, the engine
    throws and the buffer stays as it was. *)
Definition write (p : Parser) (data : jsstring) : Error + Parser :=
  if closed p then inl ParseIsClosed
  else
    let units := map charCodeAt0 (split_empty data) in
    if fits units then
      inr {| state := state p;
             buffer := buffer p ++ units;
             closed := closed p;
             strict := strict p |}
    else inl RangeError.

(** [close(data?)]: [if (data)] is false for a missing and for an empty
    string. *)
Definition close (p : Parser) (data : option jsstring) : Error + Parser :=
  bind (match data with
        | Some d => if has_length d then write p d else inr p
        | None => inr p
        end)
       (fun p' => inr {| state := state p';
                         buffer := buffer p';
                         closed := true;
                         strict := strict p' |}).

(** The [while] loop of [next]: shift code units off the buffer until one
    of them makes the transition return or throw, or the buffer is empty. *)
Inductive Loop :=
| Drained (s : ParseState.t)
| Returned (value : Node) (s : ParseState.t) (rest : list Z)
| Thrown (e : Error) (s : ParseState.t) (rest : list Z).

Fixpoint loop (strict : bool) (s : ParseState.t) (buf : list Z) : Loop :=
  match buf with
  | [] => Drained s
  | c :: rest =>
      match step strict s c with
      | Continue s' => loop strict s' rest
      | Return v s' => Returned v s' rest
      | Throw e s' => Thrown e s' rest
      end
  end.

(** What a call of [next] gives: [{ value, done: false }],
    [{ done: true }], or an exception. *)
Inductive NextResult :=
| Value (value : Node)
| Done
| Raise (e : Error).

(** [next()], with the parser as the call leaves it.  The [console.log] before
    the last [throw] only prints. *)
Definition next (p : Parser) : NextResult * Parser :=
  match loop (strict p) (state p) (buffer p) with
  | Returned v s rest => (Value v, mkParser s rest (closed p) (strict p))
  | Thrown e s rest => (Raise e, mkParser s rest (closed p) (strict p))
  | Drained s =>
      if closed p then
        match s with
        | ParseState.Text text =>
            if (0 <? length text)%nat then
              (Value (TextNode text),
               mkParser (ParseState.Text []) [] (closed p) (strict p))
            else (Done, mkParser s [] (closed p) (strict p))
        | _ => (Raise UnexpectedEndOfStream, mkParser s [] (closed p) (strict p))
        end
      else (Done, mkParser s [] (closed p) (strict p))
  end.

(** ** Draining the iterator

    [for (const node of p)] and [Array.from(p)] call [next] until it says
    [done] or throws.  [drain] collects the nodes seen on the way and how the
    iteration ended; it is given the number of calls it may make. *)

Inductive Outcome :=
| Exhausted
| Failed (e : Error)
| Unfinished.

Fixpoint drain (fuel : nat) (p : Parser) : list Node * Outcome * Parser :=
  match fuel with
  | O => ([], Unfinished, p)
  | S fuel' =>
      match next p with
      | (Value v, p') =>
          let '(nodes, out, p'') := drain fuel' p' in (v :: nodes, out, p'')
      | (Done, p') => ([], Exhausted, p')
      | (Raise e, p') => ([], Failed e, p')
      end
  end.

(** Every call that gives a node shifts at least one code unit, except the
    one that flushes the last text; two more calls than code units are
    enough (see [drain_enough]). *)
Definition calls (p : Parser) : nat := S (S (length (buffer p))).

Definition drain_all (p : Parser) : list Node * Outcome :=
  fst (drain (calls p) p).

(** [parse(str, options)] *)
Definition parse (str : jsstring) (options : ParserOptions) : Error + Parser :=
  let p := new_Parser options in
  bind (write p str) (fun p => close p None).

(** [Array.from(parse(s, options))], as [parseString] of the tests does. *)
Definition parseString (s : jsstring) (options : ParserOptions)
  : Error + list Node * Outcome :=
  bind (parse s options) (fun p => inr (drain_all p)).

Definition permissive : ParserOptions := mkParserOptions None.
Definition strictly : ParserOptions := mkParserOptions (Some true).

(** ** Input that arrives in pieces

    [write_chunks] is a caller that hands the chunks to [write] one after
    the other; [parseChunks] then closes and drains, as [parse] does for one
    string.  [parseStream] is given the chunks as its text decoder hands
    them over: it drains after every [write], then closes and drains again,
    and it stops at the first exception. *)

Fixpoint write_chunks (p : Parser) (chunks : list jsstring) : Error + Parser :=
  match chunks with
  | [] => inr p
  | data :: chunks' => bind (write p data) (fun p' => write_chunks p' chunks')
  end.

Definition parseChunks (chunks : list jsstring) (options : ParserOptions)
  : Error + list Node * Outcome :=
  bind (write_chunks (new_Parser options) chunks)
       (fun p => bind (close p None) (fun p => inr (drain_all p))).

Fixpoint stream (p : Parser) (chunks : list jsstring)
  : Error + list Node * Outcome :=
  match chunks with
  | [] => bind (close p None) (fun p => inr (drain_all p))
  | data :: chunks' =>
      bind (write p data) (fun p1 =>
        match drain (calls p1) p1 with
        | (nodes, Exhausted, p2) =>
            bind (stream p2 chunks') (fun r => inr (nodes ++ r.1, r.2))
        | (nodes, out, _) => inr (nodes, out)
        end)
  end.

Definition parseStream (chunks : list jsstring) (options : ParserOptions)
  : Error + list Node * Outcome :=
  stream (new_Parser options) chunks.

(** ** Parser objects in a store

    A program holds a [Parser] object by reference, and the object holds its
    state object and its buffer array by reference too.  [push] and [shift]
    change the array in place; an assignment to a field of [this.#state]
    changes the state object in place, and [this.#state = { ... }] makes the
    parser refer to a new object.  The store maps references to cells, and
    nothing in it keeps two parsers from referring to the same array or the
    same state object: whether they do depends on what the constructor and
    the methods do.  Strings are values.  An attributes object is a value
    here too: the source never changes one after it has made it
    ([{ ...attributes, [attributeName]: attributeValue }] is a copy). *)

Inductive Cell :=
| StateCell (s : ParseState.t)
| ArrayCell (units : list Z)
| ParserCell (state_ref buffer_ref : nat) (is_closed is_strict : bool).

Abbreviation Store := (gmap nat Cell).

(** A new object gets a reference that is not in use. *)
Definition alloc (cell : Cell) (h : Store) : nat * Store :=
  let l := fresh (dom h) in (l, <[l := cell]> h).

(** [new Parser(options)]: the field initialisers make a state object and an
    array for this one parser. *)
Definition construct (options : ParserOptions) (h : Store) : nat * Store :=
  let '(sr, h1) := alloc (StateCell (ParseState.Text [])) h in
  let '(br, h2) := alloc (ArrayCell []) h1 in
  alloc (ParserCell sr br false (default false (options_strict options))) h2.

(** The fields of the object at [r], read through its references. *)
Definition load (r : nat) (h : Store) : option Parser :=
  match h !! r with
  | Some (ParserCell sr br c st) =>
      match h !! sr, h !! br with
      | Some (StateCell s), Some (ArrayCell b) => Some (mkParser s b c st)
      | _, _ => None
      end
  | _ => None
  end.

(** The cells a call on [r] may read or change. *)
Definition footprint (r : nat) (h : Store) : gset nat :=
  match h !! r with
  | Some (ParserCell sr br _ _) => {[r; sr; br]}
  | _ => ∅
  end.

(** In the [while] loop, a transition that goes on without a [return] either
    assigns to fields of the state object, or leaves it alone, and then the
    variant stays; or it ends in [this.#state = { ... }] with an object of
    another variant.  (Before the two dashes of [<!--] and the last letter
    of [<![CDATA[] the old object is assigned to once more; nothing refers
    to it afterwards.) *)
Definition same_variant (s s' : ParseState.t) : bool :=
  match s, s' with
  | ParseState.Text _, ParseState.Text _
  | ParseState.TagName _, ParseState.TagName _
  | ParseState.TagEmpty _ _, ParseState.TagEmpty _ _
  | ParseState.Tag _ _, ParseState.Tag _ _
  | ParseState.TagAttributeName _ _ _, ParseState.TagAttributeName _ _ _
  | ParseState.TagAttribute _ _ _, ParseState.TagAttribute _ _ _
  | ParseState.TagAttributeValue _ _ _ _ _ _,
    ParseState.TagAttributeValue _ _ _ _ _ _
  | ParseState.ClosingTagName _, ParseState.ClosingTagName _
  | ParseState.ProcessingInstructionName _,
    ParseState.ProcessingInstructionName _
  | ParseState.ProcessingInstruction _ _ _,
    ParseState.ProcessingInstruction _ _ _
  | ParseState.XMLDecl _, ParseState.XMLDecl _
  | ParseState.XMLDeclAttributeName _ _, ParseState.XMLDeclAttributeName _ _
  | ParseState.XMLDeclAttribute _ _ _, ParseState.XMLDeclAttribute _ _ _
  | ParseState.XMLDeclAttributeValue _ _ _ _ _,
    ParseState.XMLDeclAttributeValue _ _ _ _ _
  | ParseState.XMLDeclEnd _, ParseState.XMLDeclEnd _
  | ParseState.CommentStart _, ParseState.CommentStart _
  | ParseState.Comment _ _, ParseState.Comment _ _
  | ParseState.CDataStart _, ParseState.CDataStart _
  | ParseState.CData _ _, ParseState.CData _ _ => true
  | _, _ => false
  end.

(** [this.#state = s']: a new state object, and the parser refers to it. *)
Definition assign_state (r br : nat) (c st : bool) (s' : ParseState.t)
    (h : Store) : Store :=
  let '(sr', h') := alloc (StateCell s') h in
  <[r := ParserCell sr' br c st]> h'.

(** [r.next()] on the store: each round reads the parser's fields through its
    references, shifts one code unit off the array and runs the transition.
    A round count bounds the [while] loop; one more than the length of the
    buffer is enough. *)
Fixpoint obj_loop (rounds : nat) (r : nat) (h : Store)
  : option (NextResult * Store) :=
  match rounds with
  | O => None
  | S rounds' =>
      match h !! r with
      | Some (ParserCell sr br c st) =>
          match h !! sr, h !! br with
          | Some (StateCell s), Some (ArrayCell b) =>
              match b with
              | [] =>
                  if c then
                    match s with
                    | ParseState.Text text =>
                        if (0 <? length text)%nat then
                          Some (Value (TextNode text),
                                assign_state r br c st (ParseState.Text []) h)
                        else Some (Done, h)
                    | _ => Some (Raise UnexpectedEndOfStream, h)
                    end
                  else Some (Done, h)
              | u :: rest =>
                  let h1 := <[br := ArrayCell rest]> h in
                  match step st s u with
                  | Continue s' =>
                      if same_variant s s'
                      then obj_loop rounds' r (<[sr := StateCell s']> h1)
                      else obj_loop rounds' r (assign_state r br c st s' h1)
                  | Return v s' =>
                      Some (Value v, assign_state r br c st s' h1)
                  | Throw e s' =>
                      Some (Raise e, <[sr := StateCell s']> h1)
                  end
              end
          | _, _ => None
          end
      | _ => None
      end
  end.

Definition obj_next (r : nat) (h : Store) : option (NextResult * Store) :=
  match load r h with
  | Some p => obj_loop (S (length (buffer p))) r h
  | None => None
  end.

(** What a method call gives: the value of [next], [this], or an exception
    of [write] or [close]. *)
Inductive Reply :=
| Replied (result : NextResult)
| ReturnedThis
| Threw (e : Error).

(** [r.write(data)] on the store. *)
Definition obj_write (r : nat) (data : jsstring) (h : Store)
  : option (Reply * Store) :=
  match h !! r with
  | Some (ParserCell sr br c st) =>
      if c then Some (Threw ParseIsClosed, h)
      else
        match h !! sr, h !! br with
        | Some (StateCell _), Some (ArrayCell b) =>
            let units := map charCodeAt0 (split_empty data) in
            if fits units
            then Some (ReturnedThis, <[br := ArrayCell (b ++ units)]> h)
            else Some (Threw RangeError, h)
        | _, _ => None
        end
  | _ => None
  end.

(** [r.close(data)] on the store. *)
Definition obj_close (r : nat) (data : option jsstring) (h : Store)
  : option (Reply * Store) :=
  let written :=
    match data with
    | Some d => if has_length d then obj_write r d h else Some (ReturnedThis, h)
    | None => Some (ReturnedThis, h)
    end in
  match written with
  | Some (ReturnedThis, h1) =>
      match h1 !! r with
      | Some (ParserCell sr br c st) =>
          match h1 !! sr, h1 !! br with
          | Some (StateCell _), Some (ArrayCell _) =>
              Some (ReturnedThis, <[r := ParserCell sr br true st]> h1)
          | _, _ => None
          end
      | _ => None
      end
  | other => other
  end.

(** The calls of the class, and one call on a parser value and on the
    store. *)
Inductive Call :=
| CallWrite (data : jsstring)
| CallClose (data : option jsstring)
| CallNext.

Definition call (c : Call) (p : Parser) : Reply * Parser :=
  match c with
  | CallWrite data =>
      match write p data with
      | inr p' => (ReturnedThis, p')
      | inl e => (Threw e, p)
      end
  | CallClose data =>
      match close p data with
      | inr p' => (ReturnedThis, p')
      | inl e => (Threw e, p)
      end
  | CallNext => (Replied (next p).1, (next p).2)
  end.

Definition obj_call (c : Call) (r : nat) (h : Store) : option (Reply * Store) :=
  match c with
  | CallWrite data => obj_write r data h
  | CallClose data => obj_close r data h
  | CallNext =>
      match obj_next r h with
      | Some (result, h') => Some (Replied result, h')
      | None => None
      end
  end.

(** The replies of one parser to a list of calls. *)
Fixpoint calls_on (p : Parser) (cs : list Call) : list Reply :=
  match cs with
  | [] => []
  | c :: cs' => (call c p).1 :: calls_on (call c p).2 cs'
  end.

(** A program with two parser references: each entry of the schedule is a
    call on the first ([true]) or on the second ([false]) of them. *)
Fixpoint obj_run (r1 r2 : nat) (schedule : list (bool * Call)) (h : Store)
  : option (list (bool * Reply) * Store) :=
  match schedule with
  | [] => Some ([], h)
  | (first, c) :: schedule' =>
      match obj_call c (if first then r1 else r2) h with
      | Some (reply, h') =>
          match obj_run r1 r2 schedule' h' with
          | Some (replies, h'') => Some ((first, reply) :: replies, h'')
          | None => None
          end
      | None => None
      end
  end.

(** The entries of a schedule, or of its replies, that belong to one of the
    two parsers. *)
Fixpoint part {A : Type} (first : bool) (l : list (bool * A)) : list A :=
  match l with
  | [] => []
  | (b, a) :: l' => if Bool.eqb b first then a :: part first l' else part first l'
  end.

(** A constructor that the class does not have: a second parser that is
    given the array of an existing one, as a buffer kept in a variable of the
    module would be. *)
Definition construct_sharing (other : nat) (options : ParserOptions) (h : Store)
  : option (nat * Store) :=
  match h !! other with
  | Some (ParserCell _ br _ _) =>
      let '(sr, h1) := alloc (StateCell (ParseState.Text [])) h in
      Some (alloc (ParserCell sr br false
                     (default false (options_strict options))) h1)
  | _ => None
  end.

(** Draining through the store, as [drain] does on a parser value, and
    [Array.from(parse(input, options))] as a program: it constructs its
    parser in the store it is given. *)
Fixpoint obj_drain (fuel : nat) (r : nat) (h : Store)
  : option (list Node * Outcome * Store) :=
  match fuel with
  | O => Some ([], Unfinished, h)
  | S fuel' =>
      match obj_next r h with
      | Some (Value v, h') =>
          match obj_drain fuel' r h' with
          | Some (nodes, out, h'') => Some (v :: nodes, out, h'')
          | None => None
          end
      | Some (Done, h') => Some ([], Exhausted, h')
      | Some (Raise e, h') => Some ([], Failed e, h')
      | None => None
      end
  end.

Definition obj_drain_all (r : nat) (h : Store)
  : option (list Node * Outcome * Store) :=
  match load r h with
  | Some p => obj_drain (calls p) r h
  | None => None
  end.

Definition obj_parseString (input : jsstring) (options : ParserOptions)
    (h : Store) : option ((Error + list Node * Outcome) * Store) :=
  let '(r, h0) := construct options h in
  match obj_write r input h0 with
  | Some (Threw e, h1) => Some (inl e, h1)
  | Some (_, h1) =>
      match obj_close r None h1 with
      | Some (Threw e, h2) => Some (inl e, h2)
      | Some (_, h2) =>
          match obj_drain_all r h2 with
          | Some (nodes, out, h3) => Some (inr (nodes, out), h3)
          | None => None
          end
      | None => None
      end
  | None => None
  end.

(** [moves r h h' p']: a call on the parser at [r] took the store from [h]
    to [h'] and left the parser as [p'], it changed no cell that was there
    and is not one of the parser's own, and what the parser refers to now is
    what it referred to before or is new. *)
Definition moves (r : nat) (h h' : Store) (p' : Parser) : Prop :=
  load r h' = Some p'
  /\ (forall l, l ∈ dom h -> l ∉ footprint r h -> h' !! l = h !! l)
  /\ (forall l, l ∈ footprint r h' -> l ∈ footprint r h \/ l ∉ dom h)
  /\ dom h ⊆ dom h'.

(** ** Runs of a closed parser

    [run strict s input] is what draining gives for a closed parser that is in
    state [s] with [input] in its buffer; [parseString] is the run from the
    initial state.  [emit] puts a node in front of a result and [flush] the
    Text node of a pending text, if there is one. *)

Definition run (strict : bool) (s : ParseState.t) (input : jsstring)
  : list Node * Outcome :=
  drain_all (mkParser s input true strict).

Definition emit (v : Node) (r : list Node * Outcome) : list Node * Outcome :=
  (v :: r.1, r.2).

Definition flush (text : jsstring) (r : list Node * Outcome)
  : list Node * Outcome :=
  if has_length text then emit (TextNode text) r else r.

(** A well-formed string: every element is a UTF-16 code unit. *)
Definition is_string (s : jsstring) : bool := forallb (between 0 65535) s.

(** The string does not hold the code unit [c]. *)
Definition without (c : Z) (s : jsstring) : bool :=
  forallb (fun u => negb (u =? c)) s.

(** An XML name: a name start character, then name characters. *)
Definition is_name (s : jsstring) : bool :=
  match s with
  | [] => false
  | c :: s' => isNameStartChar c && forallb isNameChar s'
  end.

(** No code unit of the string is white space. *)
Definition no_white_space (s : jsstring) : bool :=
  forallb (fun c => negb (isWhiteSpace c)) s.

(** ** Attributes as written

    One attribute is written as a space, the name, [=] and the value between
    two quotation marks [q].  [is_quote] says which marks a mode takes: the
    single quote always, the double quote in permissive mode only.
    [is_attribute] asks for an XML name and for a value without the mark and
    without a backslash.  [assign] is the mapping after the attributes were
    assigned in the order written.  [escape] writes a value with the three
    backslash sequences that [escapeChar] resolves. *)

Definition is_quote (st : bool) (q : Z) : bool :=
  (q =? Tokens.SingleQuote) || (negb st && (q =? Tokens.DoubleQuote)).

Definition attribute_body (q : Z) (a : jsstring * jsstring) : jsstring :=
  a.1 ++ [Tokens.Equals; q] ++ a.2 ++ [q].

Definition attribute_text (q : Z) (a : jsstring * jsstring) : jsstring :=
  32 :: attribute_body q a.

Definition attributes_text (q : Z) (l : list (jsstring * jsstring)) : jsstring :=
  concat (map (attribute_text q) l).

Definition is_attribute (q : Z) (a : jsstring * jsstring) : bool :=
  is_string a.1 && is_name a.1 && is_string a.2
  && without q a.2 && without Tokens.BackSlash a.2.

Definition assign (m : Attributes) (l : list (jsstring * jsstring)) : Attributes :=
  foldl (fun m a => <[a.1 := a.2]> m) m l.

Definition escape (value : jsstring) : jsstring :=
  concat (map (fun c => if c =? 92 then [92; 92]
                        else if c =? 10 then [92; 110]
                        else if c =? 13 then [92; 114]
                        else [c]) value).

(** ** Shapes of nodes and states

    [named] holds of a node unless it is a Text node without text or a tag
    node without a name, and [holds_name] of a state unless it is past a tag
    name that is empty.  [targeted] holds of a node unless it is a
    ProcessingInstruction node whose target is [xml] in some letter case, and
    [holds_target] is the same for the state that collects the body. *)

Definition named (v : Node) : bool :=
  match v with
  | TextNode text => has_length text
  | OpenTagNode tag => has_length (name tag)
  | CloseTagNode closetag => has_length closetag
  | _ => true
  end.

Definition holds_name (s : ParseState.t) : bool :=
  match s with
  | ParseState.TagEmpty tagName _ => has_length tagName
  | ParseState.Tag tagName _ => has_length tagName
  | ParseState.TagAttributeName tagName _ _ => has_length tagName
  | ParseState.TagAttribute tagName _ _ => has_length tagName
  | ParseState.TagAttributeValue tagName _ _ _ _ _ => has_length tagName
  | _ => true
  end.

Definition targeted (v : Node) : bool :=
  match v with
  | ProcessingInstructionNode pi =>
      negb (bool_decide (toLowerCase (pi_name pi) = str "xml"))
  | _ => true
  end.

Definition holds_target (s : ParseState.t) : bool :=
  match s with
  | ParseState.ProcessingInstruction name _ _ =>
      negb (bool_decide (toLowerCase name = str "xml"))
  | _ => true
  end.

(** The same parser object with the strict flag off. *)
Definition relaxed (p : Parser) : Parser :=
  mkParser (state p) (buffer p) (closed p) false.

(** ** A parser at rest *)

(** A parser with nothing left: empty buffer, empty text. *)
Definition at_rest (p : Parser) : Prop :=
  buffer p = [] /\ state p = ParseState.Text [].

(** ** The repository's tests, as far as they are ASCII *)

Example test_basic_xml :
  parseString (str "<root><child>hello</child></root>") permissive
  = inr ([OpenTagNode (mkTag (str "root") false ∅);
          OpenTagNode (mkTag (str "child") false ∅);
          TextNode (str "hello");
          CloseTagNode (str "child");
          CloseTagNode (str "root")], Exhausted).
Proof. vm_compute. reflexivity. Qed.

Example test_comments :
  parseString (str "<!--hello--><child>hello<!-- </child></root>-->") permissive
  = inr ([CommentNode (str "hello");
          OpenTagNode (mkTag (str "child") false ∅);
          TextNode (str "hello");
          CommentNode (str " </child></root>")], Exhausted).
Proof. vm_compute. reflexivity. Qed.

Example test_cdata :
  parseString (str "<root>hello<![CDATA[ world <(^_^)>]]></root>") permissive
  = inr ([OpenTagNode (mkTag (str "root") false ∅);
          TextNode (str "hello");
          CDataNode (str " world <(^_^)>");
          CloseTagNode (str "root")], Exhausted).
Proof. vm_compute. reflexivity. Qed.

Example test_processinginstruction :
  parseString (str "<root>hello<?foo :.o(^v^)o.:?></root>") permissive
  = inr ([OpenTagNode (mkTag (str "root") false ∅);
          TextNode (str "hello");
          ProcessingInstructionNode
            (mkProcessingInstruction (str "foo") (str ":.o(^v^)o.:"));
          CloseTagNode (str "root")], Exhausted).
Proof. vm_compute. reflexivity. Qed.

Example test_xmldecl :
  parseString (str "<?xml version='1.0' encoding='UTF-8'?> <Error/>") permissive
  = inr ([XMLDeclNode (<[str "encoding" := str "UTF-8"]>
                         (<[str "version" := str "1.0"]> ∅));
          TextNode (str " ");
          OpenTagNode (mkTag (str "Error") true ∅)], Exhausted).
Proof. vm_compute. reflexivity. Qed.

(** * Properties *)

(** ** The buffer *)

Lemma code_units_of_string (data : jsstring) :
  map charCodeAt0 (split_empty data) = data.
Proof.
  unfold split_empty. induction data as [|u data IH]; simpl; [done|].
  by rewrite IH.
Qed.

Lemma write_open (p : Parser) (data : jsstring) :
  closed p = false ->
  fits data = true ->
  write p data = inr (mkParser (state p) (buffer p ++ data) false (strict p)).
Proof.
  intros Hopen Hfits. unfold write.
  rewrite Hopen, code_units_of_string, Hfits. done.
Qed.

Lemma write_too_long (p : Parser) (data : jsstring) :
  closed p = false -> fits data = false -> write p data = inl RangeError.
Proof.
  intros Hopen Hfits. unfold write.
  by rewrite Hopen, code_units_of_string, Hfits.
Qed.

Lemma fits_app (a b : list Z) :
  fits (a ++ b) = true -> fits a = true /\ fits b = true.
Proof.
  unfold fits. rewrite length_app, Nat2Z.inj_add, !Z.leb_le. lia.
Qed.

Lemma fits_concat (chunks : list jsstring) :
  fits (concat chunks) = true -> forallb fits chunks = true.
Proof.
  induction chunks as [|data chunks IH]; cbn [concat forallb]; [done|].
  intros [Hdata Hrest]%fits_app. rewrite Hdata. by apply IH.
Qed.

Lemma write_closed (p : Parser) (data : jsstring) :
  closed p = true -> write p data = inl ParseIsClosed.
Proof. intros Hclosed. unfold write. by rewrite Hclosed. Qed.

(** The loop over two pieces of buffer is the loop over the first piece and,
    when that one drains, the loop over the second. *)
Lemma loop_app (strict : bool) (b1 b2 : list Z) : forall s,
  loop strict s (b1 ++ b2) =
  match loop strict s b1 with
  | Drained s' => loop strict s' b2
  | Returned v s' rest => Returned v s' (rest ++ b2)
  | Thrown e s' rest => Thrown e s' (rest ++ b2)
  end.
Proof.
  induction b1 as [|c b1 IH]; intros s; simpl; [done|].
  destruct (step strict s c); auto.
Qed.

Lemma loop_rest_shorter (strict : bool) (buf : list Z) : forall s v s' rest,
  loop strict s buf = Returned v s' rest -> (length rest < length buf)%nat.
Proof.
  induction buf as [|c buf IH]; intros s v s' rest; simpl; [done|].
  destruct (step strict s c) as [s1|v1 s1|e1 s1]; intros H.
  - apply IH in H. lia.
  - inversion H; subst. lia.
  - discriminate.
Qed.

(** ** Draining terminates *)

Lemma next_at_rest (p : Parser) : at_rest p -> next p = (Done, p).
Proof.
  destruct p as [s b c st]. intros [Hb Hs]. simpl in *. subst.
  unfold next. simpl. by destruct c.
Qed.

Lemma drain_at_rest (n : nat) (p : Parser) :
  at_rest p -> drain (S n) p = ([], Exhausted, p).
Proof. intros H. simpl. by rewrite next_at_rest. Qed.

(** A call that gives a node leaves a shorter buffer, or a parser at rest. *)
Lemma next_value_progress (p p' : Parser) (v : Node) :
  next p = (Value v, p') ->
  (length (buffer p') < length (buffer p))%nat \/ at_rest p'.
Proof.
  unfold next. destruct (loop (strict p) (state p) (buffer p)) as [s|v1 s rest|e s rest] eqn:Hloop.
  - destruct (closed p); [|discriminate].
    destruct s; try discriminate.
    destruct (0 <? length text)%nat; [|discriminate].
    intros H. inversion H; subst. right. by split.
  - intros H. inversion H; subst. left. simpl.
    by eapply loop_rest_shorter.
  - discriminate.
Qed.

Lemma drain_stable : forall (n m : nat) (p : Parser),
  (calls p <= n)%nat -> (n <= m)%nat -> drain m p = drain n p.
Proof.
  induction n as [|n IH]; intros m p Hn Hm; [unfold calls in Hn; lia|].
  destruct m as [|m]; [lia|]. simpl.
  destruct (next p) as [[v| |e] p'] eqn:Hnext; try done.
  destruct (next_value_progress _ _ _ Hnext) as [Hlt|Hrest].
  - rewrite (IH m p'); [done| unfold calls in *; lia | lia].
  - destruct n as [|n]; [unfold calls in Hn; lia|].
    destruct m as [|m]; [lia|].
    by rewrite !drain_at_rest.
Qed.

Lemma drain_finishes : forall (n : nat) (p : Parser),
  (calls p <= n)%nat -> (drain n p).1.2 <> Unfinished.
Proof.
  induction n as [|n IH]; intros p Hn; [unfold calls in Hn; lia|].
  simpl. destruct (next p) as [[v| |e] p'] eqn:Hnext; try done.
  destruct (next_value_progress _ _ _ Hnext) as [Hlt|Hrest].
  - specialize (IH p'). destruct (drain n p') as [[nodes out] p''].
    simpl in *. apply IH. unfold calls in *. lia.
  - destruct n as [|n]; [unfold calls in Hn; lia|].
    by rewrite drain_at_rest.
Qed.

(** [drain_all] is total: it ends on [done] or on an exception, and more calls
    change nothing. *)
Theorem drain_enough (p : Parser) (m : nat) :
  (calls p <= m)%nat ->
  (drain m p).1 = drain_all p /\ (drain_all p).2 <> Unfinished.
Proof.
  intros Hm. unfold drain_all. split.
  - by rewrite (drain_stable (calls p) m).
  - by apply drain_finishes.
Qed.

(** ** Chunked writes *)

Lemma write_chunks_open (chunks : list jsstring) : forall p : Parser,
  closed p = false ->
  forallb fits chunks = true ->
  write_chunks p chunks =
  inr (mkParser (state p) (buffer p ++ concat chunks) false (strict p)).
Proof.
  induction chunks as [|data chunks IH]; intros p Hopen Hfits;
    cbn [write_chunks concat].
  - rewrite app_nil_r. destruct p; cbn [closed] in *. by subst.
  - cbn [forallb] in Hfits. apply andb_true_iff in Hfits as [Hdata Hfits].
    rewrite (write_open p data Hopen Hdata). cbn [bind].
    rewrite IH by done. cbn [state buffer strict]. by rewrite <- app_assoc.
Qed.

Lemma parseString_run (input : jsstring) (options : ParserOptions) :
  parseString input options
  = if fits input
    then inr (run (default false (options_strict options))
                (ParseState.Text []) input)
    else inl RangeError.
Proof.
  unfold parseString, parse, run. destruct (fits input) eqn:Hfits.
  - by rewrite write_open.
  - by rewrite write_too_long.
Qed.

Lemma parseChunks_run (chunks : list jsstring) (options : ParserOptions) :
  forallb fits chunks = true ->
  parseChunks chunks options
  = inr (run (default false (options_strict options))
           (ParseState.Text []) (concat chunks)).
Proof.
  intros Hfits. unfold parseChunks. by rewrite write_chunks_open.
Qed.

(** X22: however an input that one call of [write] can take is cut into
    chunks, writing the chunks one after the other, closing and draining
    gives the same nodes in the same order, and the same end, as writing the
    whole input at once, closing and draining. *)
Theorem chunked_writes_when_short
    (options : ParserOptions) (chunks : list jsstring) :
  fits (concat chunks) = true ->
  parseChunks chunks options = parseString (concat chunks) options.
Proof.
  intros Hfits.
  rewrite parseString_run, Hfits, parseChunks_run; [done|].
  by apply fits_concat.
Qed.

Lemma chunked_writes_when_short_witness :
  fits (concat [str "<ro"; str "ot>he"; str "llo</root"; str ">"]) = true
  /\ parseChunks [str "<ro"; str "ot>he"; str "llo</root"; str ">"] strictly
     = parseString (concat [str "<ro"; str "ot>he"; str "llo</root"; str ">"])
         strictly.
Proof.
  assert (fits (concat [str "<ro"; str "ot>he"; str "llo</root"; str ">"])
          = true) as H by reflexivity.
  split; [exact H|]. exact (chunked_writes_when_short strictly _ H).
Defined.

Example chunked_writes_example :
  parseChunks [str "<ro"; str "ot>he"; str "llo</root"; str ">"] strictly
  = inr ([OpenTagNode (mkTag (str "root") false ∅);
          TextNode (str "hello");
          CloseTagNode (str "root")], Exhausted).
Proof. vm_compute. reflexivity. Qed.

(** ** Draining between the writes *)

Lemma drain_S (n : nat) (p : Parser) :
  drain (S n) p =
  match next p with
  | (Value v, p') =>
      let '(nodes, out, p'') := drain n p' in (v :: nodes, out, p'')
  | (Done, p') => ([], Exhausted, p')
  | (Raise e, p') => ([], Failed e, p')
  end.
Proof. reflexivity. Qed.

(** The equation of [drain_all]: one call of [next], then the rest. *)
Lemma drain_all_next (p : Parser) :
  drain_all p =
  match next p with
  | (Value v, p') => (v :: (drain_all p').1, (drain_all p').2)
  | (Done, _) => ([], Exhausted)
  | (Raise e, _) => ([], Failed e)
  end.
Proof.
  unfold drain_all at 1. unfold calls. rewrite drain_S.
  destruct (next p) as [[v| |e] p'] eqn:Hnext; try done.
  assert (drain (S (length (buffer p))) p' = drain (calls p') p') as ->.
  { destruct (next_value_progress _ _ _ Hnext) as [Hlt|Hrest].
    - apply drain_stable; unfold calls; lia.
    - unfold calls. by rewrite !drain_at_rest. }
  unfold drain_all. by destruct (drain (calls p') p') as [[nodes out] p''].
Qed.

(** Draining an open parser, then going on with more input, gives what
    draining the two pieces of input together gives. *)
Lemma drain_then_more (st c : bool) (b2 : list Z) : forall (n : nat) s b1,
  (S (S (length b1)) <= n)%nat ->
  match drain n (mkParser s b1 false st) with
  | (nodes, Exhausted, p2) =>
      buffer p2 = [] /\ closed p2 = false /\ strict p2 = st /\
      drain_all (mkParser s (b1 ++ b2) c st) =
      (nodes ++ (drain_all (mkParser (state p2) b2 c st)).1,
       (drain_all (mkParser (state p2) b2 c st)).2)
  | (nodes, Failed e, _) =>
      drain_all (mkParser s (b1 ++ b2) c st) = (nodes, Failed e)
  | (_, Unfinished, _) => False
  end.
Proof.
  induction n as [|n IH]; intros s b1 Hn; [lia|].
  rewrite (drain_all_next (mkParser s (b1 ++ b2) c st)), drain_S.
  destruct (loop st s b1) as [s'|v s' rest|e s' rest] eqn:Hloop;
    unfold next; cbn [buffer state closed strict]; rewrite loop_app, Hloop.
  - repeat split; try done. cbn [buffer state closed strict].
    rewrite (drain_all_next (mkParser s' b2 c st)).
    unfold next. cbn [buffer state closed strict].
    destruct (loop st s' b2) as [s2|v2 s2 rest2|e2 s2 rest2]; try done.
    destruct c; [|done]. destruct s2; try done.
    by destruct (0 <? length text)%nat.
  - apply loop_rest_shorter in Hloop.
    specialize (IH s' rest ltac:(lia)).
    destruct (drain n (mkParser s' rest false st)) as [[nodes out] p2].
    destruct out as [|e|]; [|by rewrite IH|done].
    destruct IH as (Hb & Hc & Hs & ->). done.
  - done.
Qed.

Lemma stream_open (chunks : list jsstring) : forall p : Parser,
  closed p = false -> buffer p = [] ->
  forallb fits chunks = true ->
  stream p chunks =
  inr (drain_all (mkParser (state p) (concat chunks) true (strict p))).
Proof.
  induction chunks as [|data chunks IH]; intros [s b c st] Hc Hb Hfits;
    cbn [closed buffer state strict] in *; subst; [done|].
  cbn [forallb] in Hfits. apply andb_true_iff in Hfits as [Hdata Hfits].
  cbn [stream concat]. rewrite write_open by done.
  cbn [closed buffer state strict app bind]. unfold calls. cbn [buffer].
  pose proof (drain_then_more st true (concat chunks)
                (S (S (length data))) s data ltac:(lia)) as H.
  destruct (drain (S (S (length data))) (mkParser s data false st))
    as [[nodes out] p2].
  destruct out as [|e|]; [|by rewrite H|done].
  destruct H as (Hb & Hc & Hs & ->).
  rewrite (IH p2 Hc Hb Hfits), Hs. done.
Qed.

(** X1: when the caller drains after every chunk, as [parseStream] does,
    instead of once at the end, and every chunk is one that a call of [write]
    can take, the nodes and the end are those of the whole input read from
    one closed buffer; they are those of [parse] on the whole input whenever
    one call of [write] can take the whole input. *)
Theorem stream_same_nodes (options : ParserOptions) (chunks : list jsstring) :
  forallb fits chunks = true ->
  parseStream chunks options
  = inr (run (default false (options_strict options))
           (ParseState.Text []) (concat chunks))
  /\ (fits (concat chunks) = true ->
      parseStream chunks options = parseString (concat chunks) options).
Proof.
  intros Hfits.
  assert (parseStream chunks options
          = inr (run (default false (options_strict options))
                   (ParseState.Text []) (concat chunks))) as Hrun
    by (unfold parseStream; by rewrite stream_open).
  split; [exact Hrun|].
  intros Hwhole. by rewrite parseString_run, Hwhole.
Qed.

Lemma stream_same_nodes_witness :
  forallb fits [str "<hello>wor"; str "ld</hello>asdf"] = true
  /\ parseStream [str "<hello>wor"; str "ld</hello>asdf"] permissive
     = parseString (str "<hello>world</hello>asdf") permissive.
Proof.
  assert (forallb fits [str "<hello>wor"; str "ld</hello>asdf"] = true) as H
    by reflexivity.
  split; [exact H|].
  exact (proj2 (stream_same_nodes permissive _ H) eq_refl).
Defined.

(** ** The end of the queue *)

(** C4: when [next] runs out of buffered code units without having produced a
    node, leaving the state [s]: a closed parser whose state is [Text] with
    non-empty text returns that text as a last Text node and resets the text;
    a closed parser in any other kind of state throws 'unexpected end of
    stream'; an open parser, and a closed one whose text is empty, reports
    [done] without an error. *)
Theorem next_when_queue_empties (p : Parser) (s : ParseState.t) :
  loop (strict p) (state p) (buffer p) = Drained s ->
  (forall text, closed p = true -> s = ParseState.Text text -> text <> [] ->
     next p = (Value (TextNode text),
               mkParser (ParseState.Text []) [] true (strict p)))
  /\ (closed p = true -> ParseState.isText s = false ->
      next p = (Raise UnexpectedEndOfStream, mkParser s [] true (strict p)))
  /\ (closed p = false \/ s = ParseState.Text [] ->
      next p = (Done, mkParser s [] (closed p) (strict p))).
Proof.
  intros Hloop. unfold next. rewrite Hloop. repeat split.
  - intros text -> -> Htext. by destruct text.
  - intros -> Hs. by destruct s.
  - intros [-> | ->]; [done|]. by destruct (closed p).
Qed.

Lemma next_when_queue_empties_witness :
  loop false (ParseState.Text []) (str "<roo")
    = Drained (ParseState.TagName (str "roo"))
  /\ next (mkParser (ParseState.Text []) (str "<roo") true false)
     = (Raise UnexpectedEndOfStream,
        mkParser (ParseState.TagName (str "roo")) [] true false).
Proof.
  split; [reflexivity|].
  apply (next_when_queue_empties
           (mkParser (ParseState.Text []) (str "<roo") true false)
           (ParseState.TagName (str "roo"))); reflexivity.
Defined.

Example closing_inside_a_tag_name :
  parseString (str "<roo") permissive = inr ([], Failed UnexpectedEndOfStream).
Proof. vm_compute. reflexivity. Qed.

Example closing_flushes_text :
  parseString (str "<a>tail") permissive
  = inr ([OpenTagNode (mkTag (str "a") false ∅); TextNode (str "tail")],
         Exhausted).
Proof. vm_compute. reflexivity. Qed.

(** ** Comments *)

Lemma repeat_dash (n : nat) : js_repeat (str "-") n = replicate n Tokens.Dash.
Proof. induction n as [|n IH]; simpl; [done|]. by rewrite <- IH. Qed.

(** C5: in the Comment state a [>] that finds at least two pending dashes
    emits a Comment node whose body is the text so far followed by
    [dashes - 2] dashes; in strict mode a [>] that finds more than two pending
    dashes throws 'malformed comment ending sequence' instead, and a [-] that
    arrives while the text is still empty throws 'invalid comment starting
    character'. *)
Theorem comment_closing (dashes : nat) (text : jsstring) :
  (2 <= dashes)%nat ->
  (forall strict, strict = false \/ dashes = 2%nat ->
     step strict (ParseState.Comment dashes text) Tokens.TagClose
     = Return (CommentNode (text ++ replicate (dashes - 2) Tokens.Dash))
         (ParseState.Text []))
  /\ ((2 < dashes)%nat ->
      step true (ParseState.Comment dashes text) Tokens.TagClose
      = Throw (MalformedCommentEndingSequence dashes)
          (ParseState.Comment dashes text))
  /\ (forall pending,
      step true (ParseState.Comment pending []) Tokens.Dash
      = Throw (InvalidCommentStartingCharacter Tokens.Dash)
          (ParseState.Comment pending [])).
Proof.
  intros Hdashes. split; [|split; [|by intros pending]].
  - intros strict Hmode. cbn [step]. rewrite <- repeat_dash.
    change (Tokens.TagClose =? Tokens.Dash) with false.
    change (Tokens.TagClose =? Tokens.TagClose) with true.
    cbn [andb]. rewrite (leb_correct 2 dashes Hdashes).
    destruct Hmode as [-> | ->]; [done|]. by rewrite andb_false_r.
  - intros Hmore. cbn [step].
    change (Tokens.TagClose =? Tokens.Dash) with false.
    change (Tokens.TagClose =? Tokens.TagClose) with true.
    cbn [andb]. rewrite (leb_correct 2 dashes Hdashes).
    by rewrite (proj2 (Nat.ltb_lt 2 dashes) Hmore).
Qed.

Lemma comment_closing_witness :
  (2 <= 3)%nat
  /\ step false (ParseState.Comment 3 (str "a")) Tokens.TagClose
     = Return (CommentNode (str "a-")) (ParseState.Text [])
  /\ step true (ParseState.Comment 3 (str "a")) Tokens.TagClose
     = Throw (MalformedCommentEndingSequence 3)
         (ParseState.Comment 3 (str "a")).
Proof.
  split; [lia|].
  destruct (comment_closing 3 (str "a") ltac:(lia)) as (Hemit & Hfail & _).
  split; [apply (Hemit false); by left | apply Hfail; lia].
Defined.

Example comment_with_extra_dash :
  parseString (str "<!--a--->") permissive
  = inr ([CommentNode (str "a-")], Exhausted)
  /\ parseString (str "<!--a--->") strictly
     = inr ([], Failed (MalformedCommentEndingSequence 3))
  /\ parseString (str "<!---a-->") strictly
     = inr ([], Failed (InvalidCommentStartingCharacter Tokens.Dash)).
Proof. vm_compute. done. Qed.

(** ** Tag names *)

(** C7 (what the code does): once a tag name has a first character, a code
    unit that is no name character, no white space, no [>] and no [/] is
    dropped: the transition neither throws nor changes the state. *)
Theorem tag_name_ignores_other_characters
    (strict : bool) (tagName : jsstring) (c : Z) :
  tagName <> [] ->
  isNameChar c = false ->
  isWhiteSpace c = false ->
  c <> Tokens.TagClose ->
  c <> Tokens.Slash ->
  step strict (ParseState.TagName tagName) c
  = Continue (ParseState.TagName tagName).
Proof.
  intros Hname Hchar Hspace Hclose Hslash. cbn [step].
  destruct tagName as [|u tagName]; [done|].
  cbn [has_length length Nat.eqb negb]. rewrite Hchar, Hspace.
  by rewrite (proj2 (Z.eqb_neq _ _) Hclose), (proj2 (Z.eqb_neq _ _) Hslash).
Qed.

Lemma tag_name_ignores_other_characters_witness :
  (str "a" <> [] /\ isNameChar 36 = false /\ isWhiteSpace 36 = false
   /\ 36 <> Tokens.TagClose /\ 36 <> Tokens.Slash)
  /\ step true (ParseState.TagName (str "a")) 36
     = Continue (ParseState.TagName (str "a")).
Proof.
  assert (str "a" <> []) as H1 by discriminate.
  assert (isNameChar 36 = false) as H2 by reflexivity.
  assert (isWhiteSpace 36 = false) as H3 by reflexivity.
  assert (36 <> Tokens.TagClose) as H4 by discriminate.
  assert (36 <> Tokens.Slash) as H5 by discriminate.
  split; [by repeat split|].
  exact (tag_name_ignores_other_characters true (str "a") 36 H1 H2 H3 H4 H5).
Defined.

Example dollar_in_a_tag_name :
  forall options,
    parseString (str "<a$b>") options
    = inr ([OpenTagNode (mkTag (str "ab") false ∅)], Exhausted).
Proof. intros [[[]|]]; vm_compute; reflexivity. Qed.

(** The attribute-name state next to it does throw on such a code unit. *)
Example dollar_in_an_attribute_name :
  parseString (str "<a b$='c'>") permissive
  = inr ([], Failed (InvalidTagAttributeNameCharacter 36)).
Proof. vm_compute. reflexivity. Qed.

(** ** Processing instructions *)

Lemma loop_processing_instruction_name (strict : bool) (target : jsstring) :
  forall name,
    Forall (fun c => isWhiteSpace c = false) target ->
    loop strict (ParseState.ProcessingInstructionName name) target
    = Drained (ParseState.ProcessingInstructionName
                 (name ++ target ≫= fromCharCode)).
Proof.
  induction target as [|c target IH]; intros name Hall; simpl.
  - by rewrite app_nil_r.
  - inversion Hall as [|? ? Hc Hall']; subst. rewrite Hc.
    rewrite IH by done. by rewrite <- app_assoc.
Qed.

(** C10: in the ProcessingInstructionName state every code unit that is not
    white space, [?] and [>] among them, is appended to the target name.  So
    for an input [<?] followed by code units none of which is white space
    (such as [<?pi?>]) the loop ends in that state without a node, and after
    [close] the next pull throws 'unexpected end of stream'; that is the
    result of [parse] on every such input that one call of [write] can
    take. *)
Theorem processing_instruction_without_white_space
    (options : ParserOptions) (target : jsstring) :
  Forall (fun c => isWhiteSpace c = false) target ->
  (forall strict name c, c ∈ target ->
     step strict (ParseState.ProcessingInstructionName name) c
     = Continue (ParseState.ProcessingInstructionName (name ++ fromCharCode c)))
  /\ (forall strict,
        loop strict (ParseState.Text []) (str "<?" ++ target)
        = Drained (ParseState.ProcessingInstructionName
                     (target ≫= fromCharCode)))
  /\ (forall strict,
        run strict (ParseState.Text []) (str "<?" ++ target)
        = ([], Failed UnexpectedEndOfStream))
  /\ parseString (str "<?" ++ target) options
     = if fits (str "<?" ++ target)
       then inr ([], Failed UnexpectedEndOfStream)
       else inl RangeError.
Proof.
  intros Hall.
  assert (forall strict,
            loop strict (ParseState.Text []) (str "<?" ++ target)
            = Drained (ParseState.ProcessingInstructionName
                         (target ≫= fromCharCode))) as Hloop.
  { intros strict. change (str "<?") with [60; 63]. cbn [app loop].
    change (step strict (ParseState.Text []) 60)
      with (Continue (ParseState.TagName [])).
    cbv iota.
    change (step strict (ParseState.TagName []) 63)
      with (Continue (ParseState.ProcessingInstructionName [])).
    cbv iota. by rewrite loop_processing_instruction_name. }
  assert (forall st,
            run st (ParseState.Text []) (str "<?" ++ target)
            = ([], Failed UnexpectedEndOfStream)) as Hrun.
  { intros st. unfold run. rewrite drain_all_next. unfold next.
    cbn [state buffer closed strict]. by rewrite Hloop. }
  split; [|split; [done|split; [done|]]].
  - intros strict name c Hc. cbn [step].
    by rewrite (proj1 (Forall_forall _ _) Hall c Hc).
  - by rewrite parseString_run, Hrun.
Qed.

Lemma processing_instruction_without_white_space_witness :
  Forall (fun c => isWhiteSpace c = false) (str "pi?>")
  /\ loop false (ParseState.Text []) (str "<?pi?>")
     = Drained (ParseState.ProcessingInstructionName (str "pi?>"))
  /\ parseString (str "<?pi?>") permissive
     = inr ([], Failed UnexpectedEndOfStream).
Proof.
  assert (Forall (fun c => isWhiteSpace c = false) (str "pi?>")) as Hall.
  { repeat constructor. }
  split; [exact Hall|].
  destruct (processing_instruction_without_white_space
              permissive (str "pi?>") Hall) as (_ & Hloop & _ & Hparse).
  split; [exact (Hloop false) | exact Hparse].
Defined.

Example processing_instruction_with_white_space :
  parseString (str "<?pi ?>") permissive
  = inr ([ProcessingInstructionNode (mkProcessingInstruction (str "pi") [])],
         Exhausted).
Proof. vm_compute. reflexivity. Qed.

(** ** Attribute values *)

(** C2 (what the code does): in permissive mode the [>] that follows an
    unquoted value is taken into the value, only white space ends it; the
    input [<a b=unquoted>] therefore ends inside the value, and after [close]
    the pull throws 'unexpected end of stream' without any node.  In strict
    mode the same input throws 'invalid attribute value starting character'
    at the [u]. *)
Theorem unquoted_value_takes_the_tag_close :
  loop false (ParseState.Text []) (str "<a b=unquoted>")
  = Drained (ParseState.TagAttributeValue (str "a") ∅ (str "b")
               (str "unquoted>") false None)
  /\ parseString (str "<a b=unquoted>") permissive
     = inr ([], Failed UnexpectedEndOfStream)
  /\ parseString (str "<a b=unquoted>") strictly
     = inr ([], Failed (InvalidAttributeValueStartingCharacter 117)).
Proof. vm_compute. done. Qed.

(** An unquoted value does end at white space. *)
Example unquoted_value_before_white_space :
  parseString (str "<a b=unquoted >") permissive
  = inr ([OpenTagNode (mkTag (str "a") false {[str "b" := str "unquoted"]})],
         Exhausted).
Proof. vm_compute. reflexivity. Qed.

(** The general step behind it: outside quotes, and with a value begun, [>]
    is one more character of the value. *)
Lemma unquoted_value_appends_tag_close
    (strict : bool) (tagName attributeName attributeValue : jsstring)
    (attributes : Attributes) :
  attributeValue <> [] ->
  step strict
    (ParseState.TagAttributeValue tagName attributes attributeName
       attributeValue false None) Tokens.TagClose
  = Continue
      (ParseState.TagAttributeValue tagName attributes attributeName
         (attributeValue ++ str ">") false None).
Proof. intros Hvalue. by destruct attributeValue. Qed.

(** ** Self-closing tags *)

(** C3 (what the code does): the [/] seen in the Tag state goes to TagEmpty
    with an empty attribute mapping, so the OpenTag node emitted at the [>]
    has [empty = true] and no attributes, whatever attributes the tag had
    accumulated; [<a b='c'/>] gives OpenTag(a, empty, {}). *)
Theorem self_closing_tag_loses_attributes
    (strict : bool) (tagName : jsstring) (attributes : Attributes)
    (options : ParserOptions) :
  step strict (ParseState.Tag tagName attributes) Tokens.Slash
  = Continue (ParseState.TagEmpty tagName ∅)
  /\ loop strict (ParseState.Tag tagName attributes) (str "/>")
     = Returned (OpenTagNode (mkTag tagName true ∅)) (ParseState.Text []) []
  /\ parseString (str "<a b='c'/>") options
     = inr ([OpenTagNode (mkTag (str "a") true ∅)], Exhausted).
Proof.
  repeat split.
  destruct options as [[[]|]]; vm_compute; reflexivity.
Qed.

(** Without the [/] the attribute is there. *)
Example open_tag_keeps_attributes :
  parseString (str "<a b='c'>") permissive
  = inr ([OpenTagNode (mkTag (str "a") false {[str "b" := str "c"]})],
         Exhausted).
Proof. vm_compute. reflexivity. Qed.

(** ** Dashes inside a comment *)

(** C6 (what the code does): in the Comment state every [-] is taken by the
    first branch, which in strict mode throws only while the text is still
    empty, so the later strict-mode throw for a [-] is never reached: a [-]
    that follows text is counted in strict mode as in permissive mode.  The
    dashes inside [<!--a--b-->] are therefore flushed into the text at the
    [b], and in strict mode too the input is accepted and gives one Comment
    node with the body [a--b]. *)
Theorem dashes_inside_comment (options : ParserOptions) :
  (forall strict dashes u text,
     step strict (ParseState.Comment dashes (u :: text)) Tokens.Dash
     = Continue (ParseState.Comment (dashes + 1) (u :: text)))
  /\ parseString (str "<!--a--b-->") options
     = inr ([CommentNode (str "a--b")], Exhausted).
Proof.
  split; [by intros [] dashes u text|].
  destruct options as [[[]|]]; vm_compute; reflexivity.
Qed.

Example comment_hello :
  parseString (str "<!--hello-->") strictly
  = inr ([CommentNode (str "hello")], Exhausted).
Proof. vm_compute. reflexivity. Qed.

(** ** Supplementary code points *)

(** Comparisons that [lia] settles, turned into [true] and [false]. *)
Ltac settle_comparisons :=
  repeat match goal with
  | |- context [?a =? ?b] =>
      first [ replace (a =? b) with false by (symmetry; apply Z.eqb_neq; lia)
            | replace (a =? b) with true by (symmetry; apply Z.eqb_eq; lia) ]
  | |- context [?a <=? ?b] =>
      first [ replace (a <=? b) with true by (symmetry; apply Z.leb_le; lia)
            | replace (a <=? b) with false by (symmetry; apply Z.leb_gt; lia) ]
  | |- context [?a <? ?b] =>
      first [ replace (a <? b) with true by (symmetry; apply Z.ltb_lt; lia)
            | replace (a <? b) with false by (symmetry; apply Z.ltb_ge; lia) ]
  end.

(** No surrogate code unit is a name start character. *)
Lemma surrogate_not_name_start (c : Z) :
  0xd800 <= c <= 0xdfff -> isNameStartChar c = false.
Proof.
  intros Hc. unfold isNameStartChar, between. settle_comparisons. reflexivity.
Qed.

Lemma supplementary_is_name_start (cp : Z) :
  0x10000 <= cp <= 0xeffff -> isNameStartChar cp = true.
Proof.
  intros Hcp. unfold isNameStartChar, between. settle_comparisons. reflexivity.
Qed.

Lemma surrogate_pair (cp : Z) :
  0x10000 <= cp <= 0xeffff ->
  exists hi lo,
    fromCodePoint cp = [hi; lo] /\ 0xd800 <= hi <= 0xdbff /\ 0xdc00 <= lo <= 0xdfff.
Proof.
  intros Hcp. unfold fromCodePoint. settle_comparisons.
  eexists _, _. split; [reflexivity|].
  Z.div_mod_to_equations. lia.
Qed.

(** C8 (what the code does): [write] queues UTF-16 code units, so a code
    point of the range U+10000 to U+EFFFF written after [<] takes two queue
    slots, its two surrogates.  Neither is a name start character, although
    the code point itself is one for [isNameStartChar], and the first pull
    throws 'invalid tag name starting character' at the first surrogate. *)
Theorem supplementary_name_start_is_split (options : ParserOptions) (cp : Z) :
  0x10000 <= cp <= 0xeffff ->
  isNameStartChar cp = true
  /\ exists hi lo p,
       write (new_Parser options) (str "<" ++ fromCodePoint cp) = inr p
       /\ buffer p = [Tokens.TagOpen; hi; lo]
       /\ isNameStartChar hi = false
       /\ isNameStartChar lo = false
       /\ (next p).1 = Raise (InvalidTagNameStartingCharacter hi).
Proof.
  intros Hcp. split; [by apply supplementary_is_name_start|].
  destruct (surrogate_pair cp Hcp) as (hi & lo & -> & Hhi & Hlo).
  exists hi, lo. eexists. rewrite write_open by done.
  split; [reflexivity|]. cbn [buffer new_Parser app].
  assert (isNameStartChar hi = false) as Hnohi
    by (apply surrogate_not_name_start; lia).
  assert (isNameStartChar lo = false) as Hnolo
    by (apply surrogate_not_name_start; lia).
  repeat split; try done.
  unfold next. cbn [buffer state strict closed new_Parser].
  change (str "<" ++ [hi; lo]) with (60 :: hi :: [lo]). cbn [loop].
  change (step (default false (options_strict options)) (ParseState.Text []) 60)
    with (Continue (ParseState.TagName [])).
  cbv iota. cbn [step has_length length Nat.eqb negb]. rewrite Hnohi.
  unfold Tokens.Slash, Tokens.QuestionMark, Tokens.ExclamationMark.
  settle_comparisons. reflexivity.
Qed.

Lemma supplementary_name_start_is_split_witness :
  0x10000 <= 0x10000 <= 0xeffff
  /\ write (new_Parser permissive) (str "<" ++ fromCodePoint 0x10000)
     = inr (mkParser (ParseState.Text []) [60; 0xd800; 0xdc00] false false)
  /\ (next (mkParser (ParseState.Text []) [60; 0xd800; 0xdc00] false false)).1
     = Raise (InvalidTagNameStartingCharacter 0xd800).
Proof.
  assert (0x10000 <= 0x10000 <= 0xeffff) as Hcp by lia.
  split; [exact Hcp|].
  destruct (supplementary_name_start_is_split permissive 0x10000 Hcp)
    as (_ & hi & lo & p & Hwrite & Hbuffer & _ & _ & Hnext).
  vm_compute in Hwrite. inversion Hwrite; subst p.
  vm_compute in Hbuffer. inversion Hbuffer; subst hi lo.
  split; [reflexivity | exact Hnext].
Defined.

(** A name start character of the basic plane takes one slot and starts the
    name. *)
Example basic_plane_name_start :
  parseString (str "<" ++ fromCodePoint 0x3b1 ++ str ">") strictly
  = inr ([OpenTagNode (mkTag [0x3b1] false ∅)], Exhausted).
Proof. vm_compute. reflexivity. Qed.

(** ** Independent instances

    The calls on the store do what the calls on a parser value do, within
    the cells of their receiver. *)

Lemma load_inv r h p :
  load r h = Some p ->
  exists sr br,
    h !! r = Some (ParserCell sr br (closed p) (strict p))
    /\ h !! sr = Some (StateCell (state p))
    /\ h !! br = Some (ArrayCell (buffer p)).
Proof.
  unfold load. intros H.
  destruct (h !! r) as [[| |sr br c st]|] eqn:Hr; try discriminate.
  destruct (h !! sr) as [[s| |]|] eqn:Hs; try discriminate.
  destruct (h !! br) as [[|b|]|] eqn:Hb; try discriminate.
  injection H as <-. exists sr, br. done.
Qed.

Lemma load_intro r h sr br s b c st :
  h !! r = Some (ParserCell sr br c st) ->
  h !! sr = Some (StateCell s) ->
  h !! br = Some (ArrayCell b) ->
  load r h = Some (mkParser s b c st).
Proof. intros Hr Hs Hb. unfold load. by rewrite Hr, Hs, Hb. Qed.

Lemma footprint_cells r h sr br c st :
  h !! r = Some (ParserCell sr br c st) -> footprint r h = {[r; sr; br]}.
Proof. intros Hr. unfold footprint. by rewrite Hr. Qed.

Lemma elem_of_three (l a b c : nat) :
  l ∈ ({[a; b; c]} : gset nat) <-> l = a \/ l = b \/ l = c.
Proof. rewrite !elem_of_union, !elem_of_singleton. tauto. Qed.

Lemma moves_refl r h p : load r h = Some p -> moves r h h p.
Proof. intros H. repeat split; auto. Qed.

Lemma moves_trans r h h1 h2 p1 p2 :
  moves r h h1 p1 -> moves r h1 h2 p2 -> moves r h h2 p2.
Proof.
  intros (_ & Hb1 & Hc1 & Hd1) (Hl2 & Hb2 & Hc2 & Hd2).
  split; [done|]. split; [|split].
  - intros l Hl Hn. rewrite Hb2.
    + by apply Hb1.
    + set_solver.
    + intros Hin. destruct (Hc1 l Hin); done.
  - intros l Hl. destruct (Hc2 l Hl) as [Hin|Hout].
    + by apply Hc1.
    + right. set_solver.
  - set_solver.
Qed.

(** The four ways in which a method changes the store. *)

Lemma moves_buffer r h sr br s b c st b' :
  h !! r = Some (ParserCell sr br c st) ->
  h !! sr = Some (StateCell s) ->
  h !! br = Some (ArrayCell b) ->
  moves r h (<[br := ArrayCell b']> h) (mkParser s b' c st).
Proof.
  intros Hr Hs Hb.
  assert (br <> r) by (intros ->; congruence).
  assert (br <> sr) by (intros ->; congruence).
  assert (Hr' : <[br := ArrayCell b']> h !! r = Some (ParserCell sr br c st))
    by (by rewrite lookup_insert_ne).
  split; [|split; [|split]].
  - apply (load_intro _ _ sr br); [done| |].
    + by rewrite lookup_insert_ne.
    + by rewrite lookup_insert_eq.
  - intros l _ Hn. rewrite (footprint_cells _ _ _ _ _ _ Hr) in Hn.
    rewrite lookup_insert_ne; [done|set_solver].
  - intros l Hl. left.
    by rewrite (footprint_cells _ _ _ _ _ _ Hr),
       <- (footprint_cells _ _ _ _ _ _ Hr').
  - set_solver.
Qed.

Lemma moves_state r h sr br s b c st s' :
  h !! r = Some (ParserCell sr br c st) ->
  h !! sr = Some (StateCell s) ->
  h !! br = Some (ArrayCell b) ->
  moves r h (<[sr := StateCell s']> h) (mkParser s' b c st).
Proof.
  intros Hr Hs Hb.
  assert (sr <> r) by (intros ->; congruence).
  assert (sr <> br) by (intros ->; congruence).
  assert (Hr' : <[sr := StateCell s']> h !! r = Some (ParserCell sr br c st))
    by (by rewrite lookup_insert_ne).
  split; [|split; [|split]].
  - apply (load_intro _ _ sr br); [done| |].
    + by rewrite lookup_insert_eq.
    + by rewrite lookup_insert_ne.
  - intros l _ Hn. rewrite (footprint_cells _ _ _ _ _ _ Hr) in Hn.
    rewrite lookup_insert_ne; [done|set_solver].
  - intros l Hl. left.
    by rewrite (footprint_cells _ _ _ _ _ _ Hr),
       <- (footprint_cells _ _ _ _ _ _ Hr').
  - set_solver.
Qed.

Lemma moves_closed r h sr br s b c st :
  h !! r = Some (ParserCell sr br c st) ->
  h !! sr = Some (StateCell s) ->
  h !! br = Some (ArrayCell b) ->
  moves r h (<[r := ParserCell sr br true st]> h) (mkParser s b true st).
Proof.
  intros Hr Hs Hb.
  assert (r <> sr) by (intros ->; congruence).
  assert (r <> br) by (intros ->; congruence).
  assert (Hr' : <[r := ParserCell sr br true st]> h !! r
                = Some (ParserCell sr br true st))
    by (by rewrite lookup_insert_eq).
  split; [|split; [|split]].
  - apply (load_intro _ _ sr br); [done| |]; by rewrite lookup_insert_ne.
  - intros l _ Hn. rewrite (footprint_cells _ _ _ _ _ _ Hr) in Hn.
    rewrite lookup_insert_ne; [done|set_solver].
  - intros l Hl. left.
    by rewrite (footprint_cells _ _ _ _ _ _ Hr),
       <- (footprint_cells _ _ _ _ _ _ Hr').
  - set_solver.
Qed.

Lemma moves_assign_state r h sr br s b c st s' :
  h !! r = Some (ParserCell sr br c st) ->
  h !! sr = Some (StateCell s) ->
  h !! br = Some (ArrayCell b) ->
  moves r h (assign_state r br c st s' h) (mkParser s' b c st).
Proof.
  intros Hr Hs Hb. unfold assign_state, alloc.
  set (sr' := fresh (dom h)).
  assert (Hfresh : sr' ∉ dom h) by apply is_fresh.
  assert (sr' <> r) by (intros Heq; apply Hfresh; rewrite Heq;
                         by apply elem_of_dom_2 in Hr).
  assert (sr' <> br) by (intros Heq; apply Hfresh; rewrite Heq;
                          by apply elem_of_dom_2 in Hb).
  assert (r <> br) by (intros ->; congruence).
  set (h' := <[r := ParserCell sr' br c st]> (<[sr' := StateCell s']> h)).
  assert (Hr' : h' !! r = Some (ParserCell sr' br c st))
    by (subst h'; by rewrite lookup_insert_eq).
  split; [|split; [|split]].
  - apply (load_intro _ _ sr' br); [done| |]; subst h'.
    + rewrite lookup_insert_ne by done. by rewrite lookup_insert_eq.
    + rewrite !lookup_insert_ne by done. done.
  - intros l Hl Hn. rewrite (footprint_cells _ _ _ _ _ _ Hr) in Hn.
    subst h'. rewrite !lookup_insert_ne; [done| |set_solver].
    intros <-. done.
  - intros l Hl. rewrite (footprint_cells _ _ _ _ _ _ Hr') in Hl.
    rewrite (footprint_cells _ _ _ _ _ _ Hr).
    destruct (decide (l = sr')) as [->|]; [by right|left].
    apply elem_of_three in Hl. apply elem_of_three. tauto.
  - subst h'. set_solver.
Qed.

(** A call on one parser leaves another parser alone when the two have no
    cell in common, and then they have none in common afterwards either. *)
Lemma moves_frame r h h' p' r2 p2 :
  moves r h h' p' ->
  load r2 h = Some p2 ->
  footprint r h ## footprint r2 h ->
  load r2 h' = Some p2 /\ footprint r h' ## footprint r2 h'.
Proof.
  intros (_ & Hb & Hc & _) Hl2 Hdisj.
  destruct (load_inv _ _ _ Hl2) as (sr2 & br2 & Hr2 & Hs2 & Hb2).
  rewrite (footprint_cells _ _ _ _ _ _ Hr2) in Hdisj.
  assert (Hr2' : h' !! r2 = h !! r2)
    by (apply Hb; [by apply elem_of_dom_2 in Hr2|set_solver]).
  assert (Hs2' : h' !! sr2 = h !! sr2)
    by (apply Hb; [by apply elem_of_dom_2 in Hs2|set_solver]).
  assert (Hb2' : h' !! br2 = h !! br2)
    by (apply Hb; [by apply elem_of_dom_2 in Hb2|set_solver]).
  rewrite Hr2 in Hr2'. rewrite Hs2 in Hs2'. rewrite Hb2 in Hb2'.
  split.
  - rewrite (load_intro _ _ _ _ _ _ _ _ Hr2' Hs2' Hb2'). by destruct p2.
  - rewrite (footprint_cells _ _ _ _ _ _ Hr2').
    intros l Hl Hl2'. destruct (Hc l Hl) as [Hin|Hout].
    + exact (Hdisj l Hin Hl2').
    + apply Hout. apply elem_of_three in Hl2' as [->|[->| ->]];
        by eapply elem_of_dom_2.
Qed.

(** The constructor: a parser in its initial state that shares no cell with
    anything that was in the store. *)
Lemma construct_new options h :
  let r := (construct options h).1 in
  let h' := (construct options h).2 in
  load r h' = Some (new_Parser options)
  /\ (forall l, l ∈ dom h -> h' !! l = h !! l)
  /\ (forall l, l ∈ footprint r h' -> l ∉ dom h)
  /\ dom h ⊆ dom h'.
Proof.
  unfold construct, alloc. cbn [fst snd].
  set (sr := fresh (dom h)).
  set (h1 := <[sr := StateCell (ParseState.Text [])]> h).
  set (br := fresh (dom h1)).
  set (h2 := <[br := ArrayCell []]> h1).
  set (r := fresh (dom h2)).
  assert (Hsr : sr ∉ dom h) by apply is_fresh.
  assert (Hbr : br ∉ dom h1) by apply is_fresh.
  assert (Hr : r ∉ dom h2) by apply is_fresh.
  assert (br <> sr) by (subst h1; set_solver).
  assert (r <> br) by (subst h2; set_solver).
  assert (r <> sr) by (subst h2 h1; set_solver).
  set (cell := ParserCell sr br false (default false (options_strict options))).
  assert (Hr' : <[r := cell]> h2 !! r = Some cell) by (by rewrite lookup_insert_eq).
  split; [|split; [|split]].
  - unfold new_Parser. apply (load_intro _ _ sr br); [done| |].
    + subst h2 h1. rewrite !lookup_insert_ne by done. by rewrite lookup_insert_eq.
    + subst h2. rewrite lookup_insert_ne by done. by rewrite lookup_insert_eq.
  - intros l Hl. subst h2 h1.
    rewrite !lookup_insert_ne; [done| | |]; intros <-; set_solver.
  - intros l Hl. rewrite (footprint_cells _ _ _ _ _ _ Hr') in Hl.
    subst h2 h1. apply elem_of_three in Hl as [->|[->| ->]]; set_solver.
  - subst h2 h1. set_solver.
Qed.

(** [next] one code unit at a time. *)
Lemma next_cons s u rest c st :
  next (mkParser s (u :: rest) c st)
  = match step st s u with
    | Continue s' => next (mkParser s' rest c st)
    | Return v s' => (Value v, mkParser s' rest c st)
    | Throw e s' => (Raise e, mkParser s' rest c st)
    end.
Proof. unfold next. cbn [buffer state closed strict loop]. by destruct (step st s u). Qed.

(** [next] on the store does what [next] does on the parser's fields, and
    it stays within the parser's own cells. *)
Lemma obj_loop_next rounds : forall r h p,
  load r h = Some p ->
  (length (buffer p) < rounds)%nat ->
  exists h',
    obj_loop rounds r h = Some ((next p).1, h') /\ moves r h h' (next p).2.
Proof.
  induction rounds as [|rounds IH]; intros r h p Hload Hlen; [lia|].
  destruct (load_inv _ _ _ Hload) as (sr & br & Hr & Hs & Hb).
  destruct p as [s b c st]. cbn [state buffer closed strict] in *.
  cbn [obj_loop]. rewrite Hr, Hs, Hb.
  destruct b as [|u rest].
  - unfold next. cbn [buffer state closed strict loop].
    destruct c.
    + destruct s; try (eexists; split; [reflexivity|by apply moves_refl]).
      destruct (0 <? length text)%nat.
      * eexists; split; [reflexivity|]. by eapply moves_assign_state.
      * eexists; split; [reflexivity|by apply moves_refl].
    + eexists; split; [reflexivity|by apply moves_refl].
  - rewrite next_cons.
    pose proof (moves_buffer _ _ _ _ _ _ _ _ rest Hr Hs Hb) as Hshift.
    set (h1 := <[br := ArrayCell rest]> h) in *.
    assert (br <> r) by (intros ->; congruence).
    assert (br <> sr) by (intros ->; congruence).
    assert (Hr1 : h1 !! r = Some (ParserCell sr br c st))
      by (subst h1; by rewrite lookup_insert_ne).
    assert (Hs1 : h1 !! sr = Some (StateCell s))
      by (subst h1; by rewrite lookup_insert_ne).
    assert (Hb1 : h1 !! br = Some (ArrayCell rest))
      by (subst h1; by rewrite lookup_insert_eq).
    cbn [length] in Hlen.
    destruct (step st s u) as [s'|v s'|e s'].
    + destruct (same_variant s s').
      * pose proof (moves_state _ _ _ _ _ _ _ _ s' Hr1 Hs1 Hb1) as Hset.
        destruct (IH r _ (mkParser s' rest c st) (proj1 Hset)) as (h' & Hrun & Hmoves);
          [cbn [buffer]; lia|].
        exists h'. split; [done|].
        eapply moves_trans; [exact Hshift|].
        eapply moves_trans; [exact Hset|exact Hmoves].
      * pose proof (moves_assign_state _ _ _ _ _ _ _ _ s' Hr1 Hs1 Hb1) as Hset.
        destruct (IH r _ (mkParser s' rest c st) (proj1 Hset)) as (h' & Hrun & Hmoves);
          [cbn [buffer]; lia|].
        exists h'. split; [done|].
        eapply moves_trans; [exact Hshift|].
        eapply moves_trans; [exact Hset|exact Hmoves].
    + eexists; split; [reflexivity|]. cbn [snd].
      eapply moves_trans; [exact Hshift|]. by eapply moves_assign_state.
    + eexists; split; [reflexivity|]. cbn [snd].
      eapply moves_trans; [exact Hshift|]. by eapply moves_state.
Qed.

Lemma obj_next_next r h p :
  load r h = Some p ->
  exists h', obj_next r h = Some ((next p).1, h') /\ moves r h h' (next p).2.
Proof.
  intros Hload. unfold obj_next. rewrite Hload.
  apply obj_loop_next; [done|lia].
Qed.

Lemma obj_write_write r h p data :
  load r h = Some p ->
  exists h',
    obj_write r data h = Some ((call (CallWrite data) p).1, h')
    /\ moves r h h' (call (CallWrite data) p).2.
Proof.
  intros Hload.
  destruct (load_inv _ _ _ Hload) as (sr & br & Hr & Hs & Hb).
  destruct p as [s b c st]. cbn [state buffer closed strict] in *.
  unfold obj_write, call, write. cbn [state buffer closed strict].
  rewrite Hr. destruct c.
  - eexists; split; [reflexivity|by apply moves_refl].
  - rewrite Hs, Hb. destruct (fits _).
    + eexists; split; [reflexivity|]. by eapply moves_buffer.
    + eexists; split; [reflexivity|by apply moves_refl].
Qed.

Lemma obj_close_close r h p data :
  load r h = Some p ->
  exists h',
    obj_close r data h = Some ((call (CallClose data) p).1, h')
    /\ moves r h h' (call (CallClose data) p).2.
Proof.
  intros Hload.
  assert (Hflag : forall h1 p1, moves r h h1 p1 ->
            exists h',
              match h1 !! r with
              | Some (ParserCell sr br c st) =>
                  match h1 !! sr, h1 !! br with
                  | Some (StateCell _), Some (ArrayCell _) =>
                      Some (ReturnedThis, <[r := ParserCell sr br true st]> h1)
                  | _, _ => None
                  end
              | _ => None
              end = Some (ReturnedThis, h')
              /\ moves r h h' (mkParser (state p1) (buffer p1) true (strict p1))).
  { intros h1 p1 Hm.
    destruct (load_inv _ _ _ (proj1 Hm)) as (sr & br & Hr & Hs & Hb).
    rewrite Hr, Hs, Hb. eexists; split; [reflexivity|].
    eapply moves_trans; [exact Hm|]. by eapply moves_closed. }
  unfold obj_close, call, close.
  destruct data as [d|]; [destruct (has_length d) eqn:Hd|].
  - destruct (obj_write_write r h p d Hload) as (h1 & Hw & Hm).
    rewrite Hw. unfold call in Hw, Hm |- *.
    destruct (write p d) as [e|p1]; cbn [fst snd bind] in *.
    + by exists h1.
    + by apply Hflag.
  - cbn [bind fst snd]. apply Hflag. by apply moves_refl.
  - cbn [bind fst snd]. apply Hflag. by apply moves_refl.
Qed.

Lemma obj_call_call c r h p :
  load r h = Some p ->
  exists h',
    obj_call c r h = Some ((call c p).1, h') /\ moves r h h' (call c p).2.
Proof.
  intros Hload. destruct c as [data|data|].
  - by apply obj_write_write.
  - by apply obj_close_close.
  - destruct (obj_next_next r h p Hload) as (h' & Hn & Hm).
    exists h'. cbn [obj_call call fst snd]. by rewrite Hn.
Qed.

Lemma obj_drain_drain fuel : forall r h p,
  load r h = Some p ->
  exists h',
    obj_drain fuel r h = Some ((drain fuel p).1, h')
    /\ moves r h h' (drain fuel p).2.
Proof.
  induction fuel as [|fuel IH]; intros r h p Hload.
  - exists h. split; [done|by apply moves_refl].
  - destruct (obj_next_next r h p Hload) as (h1 & Hn & Hm).
    cbn [obj_drain]. rewrite Hn, drain_S.
    destruct (next p) as [[v| |e] p1]; cbn [fst snd] in *.
    + destruct (IH r h1 p1 (proj1 Hm)) as (h2 & Hd & Hm2).
      rewrite Hd. destruct (drain fuel p1) as [[nodes out] p2].
      cbn [fst snd] in *. exists h2. split; [done|].
      by eapply moves_trans.
    + by exists h1.
    + by exists h1.
Qed.

(** Two parsers without a common cell, under any schedule of calls: each
    replies as it would alone. *)
Lemma obj_run_apart r1 r2 schedule : forall h p1 p2,
  load r1 h = Some p1 ->
  load r2 h = Some p2 ->
  footprint r1 h ## footprint r2 h ->
  exists replies h',
    obj_run r1 r2 schedule h = Some (replies, h')
    /\ part true replies = calls_on p1 (part true schedule)
    /\ part false replies = calls_on p2 (part false schedule).
Proof.
  induction schedule as [|[first c] schedule IH]; intros h p1 p2 H1 H2 Hdisj.
  - by exists [], h.
  - cbn [obj_run]. destruct first.
    + destruct (obj_call_call c r1 h p1 H1) as (h' & Hc & Hm).
      rewrite Hc.
      destruct (moves_frame _ _ _ _ _ _ Hm H2 Hdisj) as (H2' & Hdisj').
      destruct (IH h' _ p2 (proj1 Hm) H2' Hdisj') as (replies & h'' & Hrun & Ha & Hb).
      rewrite Hrun. eexists _, h''. split; [reflexivity|].
      cbn [part Bool.eqb calls_on]. by rewrite Ha, Hb.
    + destruct (obj_call_call c r2 h p2 H2) as (h' & Hc & Hm).
      rewrite Hc.
      destruct (moves_frame _ _ _ _ _ _ Hm H1 (symmetry Hdisj)) as (H1' & Hdisj').
      destruct (IH h' p1 _ H1' (proj1 Hm) (symmetry Hdisj')) as (replies & h'' & Hrun & Ha & Hb).
      rewrite Hrun. eexists _, h''. split; [reflexivity|].
      cbn [part Bool.eqb calls_on]. by rewrite Ha, Hb.
Qed.

(** Two parsers that were constructed one after the other have no cell in
    common. *)
Lemma construct_twice options1 options2 h :
  let r1 := (construct options1 h).1 in
  let h1 := (construct options1 h).2 in
  let r2 := (construct options2 h1).1 in
  let h2 := (construct options2 h1).2 in
  load r1 h2 = Some (new_Parser options1)
  /\ load r2 h2 = Some (new_Parser options2)
  /\ footprint r1 h2 ## footprint r2 h2.
Proof.
  intros r1 h1 r2 h2.
  destruct (construct_new options1 h) as (Hl1 & _ & _ & _).
  destruct (construct_new options2 h1) as (Hl2 & Hsame & Hnew & _).
  fold r1 h1 in Hl1. fold r2 h2 in Hl2, Hsame, Hnew.
  destruct (load_inv _ _ _ Hl1) as (sr & br & Hr & Hs & Hb).
  assert (Hr' : h2 !! r1 = h1 !! r1) by (apply Hsame; by eapply elem_of_dom_2).
  assert (Hs' : h2 !! sr = h1 !! sr) by (apply Hsame; by eapply elem_of_dom_2).
  assert (Hb' : h2 !! br = h1 !! br) by (apply Hsame; by eapply elem_of_dom_2).
  rewrite Hr in Hr'. rewrite Hs in Hs'. rewrite Hb in Hb'.
  split; [|split; [done|]].
  - by rewrite (load_intro _ _ _ _ _ _ _ _ Hr' Hs' Hb').
  - rewrite (footprint_cells _ _ _ _ _ _ Hr').
    intros l Hin1 Hin2. apply (Hnew l Hin2).
    apply elem_of_three in Hin1 as [->|[->| ->]]; by eapply elem_of_dom_2.
Qed.

(** [Array.from(parse(input, options))] as a program on the store gives what
    [parseString] gives, whatever the store holds. *)
Lemma obj_parseString_parseString input options h :
  exists h', obj_parseString input options h = Some (parseString input options, h').
Proof.
  unfold obj_parseString, parseString, parse.
  destruct (construct_new options h) as (Hl & _).
  destruct (construct options h) as [r h0]. cbn [fst snd] in Hl.
  destruct (obj_write_write r h0 _ input Hl) as (h1 & Hw & Hm1).
  rewrite Hw. unfold call in Hw, Hm1 |- *.
  destruct (write (new_Parser options) input) as [e|p1]; cbn [fst snd bind] in *.
  - by exists h1.
  - destruct (obj_close_close r h1 p1 None (proj1 Hm1)) as (h2 & Hc & Hm2).
    rewrite Hc. unfold call in Hc, Hm2 |- *.
    destruct (close p1 None) as [e|p2]; cbn [fst snd bind] in *.
    + by exists h2.
    + unfold obj_drain_all. rewrite (proj1 Hm2).
      destruct (obj_drain_drain (calls p2) r h2 p2 (proj1 Hm2)) as (h3 & Hd & _).
      rewrite Hd. unfold drain_all.
      destruct (drain (calls p2) p2) as [[nodes out] p3]. by exists h3.
Qed.

(** C9: two parsers constructed one after the other, in any store, are
    independent.  Run as [Array.from(parse(input, options))] twice, the
    second time in the store the first run leaves behind, the program gives
    the same nodes and the same outcome both times, those of [parseString].
    And under every schedule that interleaves calls of [write], [close] and
    [next] on the two parsers, each parser replies as a parser that is alone
    would reply to its own calls, so two parsers that are given the same
    calls give the same replies.  The constructor makes the state object and
    the buffer array of each parser anew, and every method reads and changes
    only the cells of its receiver. *)
Theorem instances_are_independent (h : Store) (options : ParserOptions)
    (input : jsstring) :
  (exists h1 h2,
     obj_parseString input options h = Some (parseString input options, h1)
     /\ obj_parseString input options h1
        = Some (parseString input options, h2))
  /\ (forall schedule,
        let r1 := (construct options h).1 in
        let h1 := (construct options h).2 in
        let r2 := (construct options h1).1 in
        let h2 := (construct options h1).2 in
        exists replies h',
          obj_run r1 r2 schedule h2 = Some (replies, h')
          /\ part true replies
             = calls_on (new_Parser options) (part true schedule)
          /\ part false replies
             = calls_on (new_Parser options) (part false schedule)
          /\ (part true schedule = part false schedule ->
              part true replies = part false replies)).
Proof.
  split.
  - destruct (obj_parseString_parseString input options h) as (h1 & H1).
    destruct (obj_parseString_parseString input options h1) as (h2 & H2).
    by exists h1, h2.
  - intros schedule r1 h1 r2 h2.
    destruct (construct_twice options options h) as (Hl1 & Hl2 & Hdisj).
    fold r1 h1 r2 h2 in Hl1, Hl2, Hdisj.
    destruct (obj_run_apart r1 r2 schedule h2 _ _ Hl1 Hl2 Hdisj)
      as (replies & h' & Hrun & Ha & Hb).
    exists replies, h'. repeat split; try done.
    intros Heq. by rewrite Ha, Hb, Heq.
Qed.

Lemma instances_are_independent_witness :
  let schedule :=
    [(true, CallWrite (str "<a>")); (false, CallWrite (str "<a>"));
     (false, CallClose None); (false, CallNext); (true, CallClose None);
     (true, CallNext); (false, CallNext); (true, CallNext)] in
  let r1 := (construct strictly ∅).1 in
  let h1 := (construct strictly ∅).2 in
  let r2 := (construct strictly h1).1 in
  let h2 := (construct strictly h1).2 in
  part true schedule = part false schedule
  /\ exists replies h',
       obj_run r1 r2 schedule h2 = Some (replies, h')
       /\ part true replies = part false replies.
Proof.
  intros schedule r1 h1 r2 h2.
  split; [reflexivity|].
  destruct (proj2 (instances_are_independent ∅ strictly (str "<a>")) schedule)
    as (replies & h' & Hrun & _ & _ & Heq).
  exists replies, h'. split; [exact Hrun|].
  apply Heq. reflexivity.
Defined.

(** The store does not make parsers independent by itself: a second parser
    that is given the buffer array of the first one takes the first one's
    input.  Here the first parser is written to and the second one, which
    was given nothing, replies with the tag, and the first has nothing left;
    alone, the second would say [done] and the first would give the tag. *)
Example shared_buffer_interferes :
  let schedule :=
    [(true, CallWrite (str "<a>")); (false, CallNext);
     (true, CallClose None); (true, CallNext)] in
  let r1 := (construct permissive ∅).1 in
  let h1 := (construct permissive ∅).2 in
  let tag := OpenTagNode (mkTag (str "a") false ∅) in
  match construct_sharing r1 permissive h1 with
  | Some (r2, h2) =>
      option_map fst (obj_run r1 r2 schedule h2)
      = Some [(true, ReturnedThis); (false, Replied (Value tag));
              (true, ReturnedThis); (true, Replied Done)]
  | None => False
  end
  /\ calls_on (new_Parser permissive) (part false schedule) = [Replied Done]
  /\ calls_on (new_Parser permissive) (part true schedule)
     = [ReturnedThis; ReturnedThis; Replied (Value tag)].
Proof. vm_compute. repeat split. Qed.

(** ** Enough calls, on an example *)

Lemma drain_enough_witness :
  (calls (mkParser (ParseState.Text []) (str "<a>") true false) <= 9)%nat
  /\ (drain 9 (mkParser (ParseState.Text []) (str "<a>") true false)).1
     = drain_all (mkParser (ParseState.Text []) (str "<a>") true false).
Proof.
  assert (calls (mkParser (ParseState.Text []) (str "<a>") true false) <= 9)%nat
    as Hcalls by (vm_compute; lia).
  split; [exact Hcalls|].
  exact (proj1 (drain_enough _ 9%nat Hcalls)).
Defined.

(** * Further properties *)

(** ** Runs, one construct after the other *)

Lemma loop_seq (st : bool) (b1 b2 : list Z) (s s1 : ParseState.t) :
  loop st s b1 = Drained s1 ->
  loop st s (b1 ++ b2) = loop st s1 b2.
Proof. intros H. by rewrite loop_app, H. Qed.

Lemma run_returned (st : bool) (s s' : ParseState.t) (b rest : list Z)
    (v : Node) :
  loop st s b = Returned v s' rest ->
  run st s b = emit v (run st s' rest).
Proof.
  intros H. unfold run. rewrite drain_all_next. unfold next.
  cbn [state buffer closed strict]. by rewrite H.
Qed.

Lemma run_drained (st : bool) (s s' : ParseState.t) (b1 b2 : list Z) :
  loop st s b1 = Drained s' ->
  run st s (b1 ++ b2) = run st s' b2.
Proof.
  intros H. unfold run. rewrite !drain_all_next. unfold next.
  cbn [state buffer closed strict]. by rewrite (loop_seq _ _ _ _ _ H).
Qed.

Lemma run_emits (st : bool) (s s' : ParseState.t) (b1 b2 : list Z)
    (v : Node) :
  loop st s b1 = Returned v s' [] ->
  run st s (b1 ++ b2) = emit v (run st s' b2).
Proof.
  intros H. apply run_returned. by rewrite loop_app, H.
Qed.

Lemma run_continue (st : bool) (s s' : ParseState.t) (c : Z) (rest : list Z) :
  step st s c = Continue s' -> run st s (c :: rest) = run st s' rest.
Proof.
  intros H. apply (run_drained st s s' [c] rest). cbn [loop]. by rewrite H.
Qed.

Lemma run_end_of_text (st : bool) (text : jsstring) :
  run st (ParseState.Text text) [] = flush text ([], Exhausted).
Proof.
  unfold run, flush. rewrite drain_all_next. unfold next.
  cbn [state buffer closed strict loop]. destruct text as [|c text]; [done|].
  cbn [length Nat.ltb Nat.leb has_length Nat.eqb negb].
  rewrite drain_all_next. reflexivity.
Qed.

Lemma run_end_inside (st : bool) (s : ParseState.t) :
  ParseState.isText s = false ->
  run st s [] = ([], Failed UnexpectedEndOfStream).
Proof.
  intros Hs. unfold run. rewrite drain_all_next. unfold next.
  cbn [state buffer closed strict loop]. by destruct s.
Qed.

Lemma run_tag_open (st : bool) (text rest : jsstring) :
  run st (ParseState.Text text) (Tokens.TagOpen :: rest)
  = flush text (run st (ParseState.TagName []) rest).
Proof.
  unfold flush. destruct text as [|c text].
  - by apply (run_drained st _ _ [Tokens.TagOpen] rest).
  - by apply (run_emits st _ _ [Tokens.TagOpen] rest).
Qed.

(** ** Code units and the classifiers *)

Lemma fromCharCode_unit (c : Z) : between 0 65535 c = true -> fromCharCode c = [c].
Proof.
  unfold between, fromCharCode. intros [H1 H2]%andb_true_iff.
  apply Z.leb_le in H1, H2. by rewrite Z.mod_small by lia.
Qed.

(** Boolean classifier facts in the hypotheses and the goal, as linear
    arithmetic. *)
Ltac classify :=
  unfold isNameChar, isNameStartChar, isChar, isWhiteSpace, isQuotationMark,
    between, Tokens.TagOpen, Tokens.TagClose, Tokens.Equals, Tokens.Dash,
    Tokens.DoubleQuote, Tokens.SingleQuote, Tokens.Slash, Tokens.BackSlash,
    Tokens.QuestionMark, Tokens.ExclamationMark, Tokens.LeftSquareBracket,
    Tokens.RightSquareBracket in *;
  repeat match goal with
  | H : _ = true |- _ =>
      rewrite ?orb_true_iff, ?andb_true_iff, ?Z.leb_le, ?Z.eqb_eq in H
  end;
  rewrite ?orb_true_iff, ?andb_true_iff, ?orb_false_iff, ?andb_false_iff,
    ?Z.leb_le, ?Z.eqb_eq, ?Z.leb_gt, ?Z.eqb_neq;
  lia.

Lemma name_char_facts (c : Z) :
  isNameChar c = true ->
  isChar c = true
  /\ isWhiteSpace c = false
  /\ isQuotationMark c = false
  /\ c <> Tokens.TagOpen /\ c <> Tokens.TagClose /\ c <> Tokens.Slash
  /\ c <> Tokens.Equals /\ c <> Tokens.QuestionMark
  /\ c <> Tokens.ExclamationMark /\ c <> Tokens.BackSlash
  /\ c <> Tokens.LeftSquareBracket /\ c <> Tokens.RightSquareBracket.
Proof. intros H. classify. Qed.

Lemma is_string_cons (c : Z) (s : jsstring) :
  is_string (c :: s) = true -> fromCharCode c = [c] /\ is_string s = true.
Proof.
  unfold is_string. cbn [forallb]. intros [Hc Hs]%andb_true_iff.
  split; [by apply fromCharCode_unit | done].
Qed.

Lemma without_cons (d c : Z) (s : jsstring) :
  without d (c :: s) = true -> (c =? d) = false /\ without d s = true.
Proof.
  unfold without. cbn [forallb]. intros [Hc Hs]%andb_true_iff.
  split; [by apply negb_true_iff | done].
Qed.

(** ** Text *)

Lemma loop_text (st : bool) (text : jsstring) : forall pending,
  is_string text = true -> without Tokens.TagOpen text = true ->
  loop st (ParseState.Text pending) text
  = Drained (ParseState.Text (pending ++ text)).
Proof.
  induction text as [|c text IH]; intros pending Hstr Hno; cbn [loop].
  - by rewrite app_nil_r.
  - apply is_string_cons in Hstr as [Hc Hstr].
    apply without_cons in Hno as [Hne Hno].
    cbn [step]. rewrite Hne, Hc, IH by done. by rewrite <- app_assoc.
Qed.

(** X3: text round trip.  An input without [<] comes back as one Text node
    holding exactly the input, or as no node at all when the input is empty
    (unless it is more than one call of [write] takes, which throws);
    more generally a text in front of a [<] is emitted as one Text node (none
    when it is empty) before the tag is read. *)
Theorem text_round_trip (options : ParserOptions) (text rest : jsstring) :
  is_string text = true ->
  without Tokens.TagOpen text = true ->
  parseString text options
  = (if fits text then inr (flush text ([], Exhausted)) else inl RangeError)
  /\ forall st,
       run st (ParseState.Text []) (text ++ Tokens.TagOpen :: rest)
       = flush text (run st (ParseState.TagName []) rest).
Proof.
  intros Hstr Hno. split.
  - rewrite parseString_run. destruct (fits text); [|done]. f_equal.
    pose proof (run_drained (default false (options_strict options)) _ _ _ []
                  (loop_text _ text [] Hstr Hno)) as Hrun.
    rewrite app_nil_r in Hrun. rewrite Hrun. cbn [app].
    apply run_end_of_text.
  - intros st.
    rewrite (run_drained _ _ _ _ _ (loop_text _ text [] Hstr Hno)).
    apply run_tag_open.
Qed.

Lemma text_round_trip_witness :
  (is_string (str "a > b") = true /\ without Tokens.TagOpen (str "a > b") = true)
  /\ parseString (str "a > b") strictly
     = inr ([TextNode (str "a > b")], Exhausted)
  /\ parseString [] strictly = inr ([], Exhausted).
Proof.
  assert (is_string (str "a > b") = true) as H1 by reflexivity.
  assert (without Tokens.TagOpen (str "a > b") = true) as H2 by reflexivity.
  split; [by split|]. split.
  - exact (proj1 (text_round_trip strictly (str "a > b") [] H1 H2)).
  - exact (proj1 (text_round_trip strictly [] [] eq_refl eq_refl)).
Defined.

(** ** A write that is too long *)

Lemma parse_too_long (input : jsstring) (options : ParserOptions) :
  fits input = false -> parseString input options = inl RangeError.
Proof. intros Hfits. by rewrite parseString_run, Hfits. Qed.

Lemma parseChunks_text (options : ParserOptions) (chunks : list jsstring) :
  forallb fits chunks = true ->
  is_string (concat chunks) = true ->
  without Tokens.TagOpen (concat chunks) = true ->
  parseChunks chunks options = inr (flush (concat chunks) ([], Exhausted)).
Proof.
  intros Hfits Hstr Hno. rewrite parseChunks_run by done. f_equal.
  pose proof (run_drained (default false (options_strict options)) _ _ _ []
                (loop_text _ (concat chunks) [] Hstr Hno)) as Hrun.
  rewrite app_nil_r in Hrun. rewrite Hrun. apply run_end_of_text.
Qed.

(** C1 (what the code does): [write] hands all code units of its string to
    one call of [push], and the engine throws a RangeError when they are more
    than a call takes.  The string of 200000 letters [a] written at once
    makes [write] throw, so that [parse] gives no node at all; the same
    string written as two chunks of 100000 letters is accepted and gives one
    Text node with the 200000 letters. *)
Theorem long_single_write_throws :
  let half := js_repeat (str "a") (Z.to_nat 100000) in
  parseString (half ++ half) permissive = inl RangeError
  /\ parseChunks [half; half] permissive
     = inr ([TextNode (half ++ half)], Exhausted).
Proof.
  intros half.
  assert (fits (half ++ half) = false) as Hlong by (vm_compute; reflexivity).
  assert (forallb fits [half; half] = true) as Hfits
    by (vm_compute; reflexivity).
  assert (is_string (concat [half; half]) = true) as Hstr
    by (vm_compute; reflexivity).
  assert (without Tokens.TagOpen (concat [half; half]) = true) as Hno
    by (vm_compute; reflexivity).
  assert (has_length (concat [half; half]) = true) as Hlen
    by (vm_compute; reflexivity).
  assert (concat [half; half] = half ++ half) as Hcat
    by (cbn [concat]; by rewrite app_nil_r).
  split; [by apply parse_too_long|].
  rewrite (parseChunks_text permissive [half; half] Hfits Hstr Hno).
  unfold flush, emit. rewrite Hlen, Hcat. reflexivity.
Qed.

(** ** Tags without attributes *)

Lemma loop_name_chars (st : bool) (rest : jsstring) : forall name,
  name <> [] ->
  is_string rest = true -> forallb isNameChar rest = true ->
  loop st (ParseState.TagName name) rest
  = Drained (ParseState.TagName (name ++ rest))
  /\ loop st (ParseState.ClosingTagName name) rest
     = Drained (ParseState.ClosingTagName (name ++ rest)).
Proof.
  induction rest as [|c rest IH]; intros name Hname Hstr Hchars; cbn [loop].
  - by rewrite app_nil_r.
  - apply is_string_cons in Hstr as [Hc Hstr].
    cbn [forallb] in Hchars. apply andb_true_iff in Hchars as [Hchar Hchars].
    destruct (IH (name ++ [c]) ltac:(by destruct name) Hstr Hchars) as [H1 H2].
    cbn [step]. destruct name as [|n name]; [done|].
    cbn [has_length length Nat.eqb negb]. rewrite Hchar, Hc.
    rewrite <- !app_assoc in *. by split.
Qed.

Lemma loop_tag_name (st : bool) (name : jsstring) :
  is_string name = true -> is_name name = true ->
  loop st (ParseState.TagName []) name = Drained (ParseState.TagName name)
  /\ loop st (ParseState.ClosingTagName []) name
     = Drained (ParseState.ClosingTagName name).
Proof.
  destruct name as [|c name]; [done|]. intros Hstr Hname.
  apply is_string_cons in Hstr as [Hc Hstr].
  cbn [is_name] in Hname. apply andb_true_iff in Hname as [Hstart Hchars].
  cbn [loop step has_length length Nat.eqb negb]. rewrite Hstart, Hc.
  by apply (loop_name_chars st name [c]).
Qed.

(** X4: tags without attributes.  For every XML name, [<name>] is read as an
    OpenTag node with that name, not self-closing and without attributes,
    [<name/>] as the same node with [empty = true], and [</name>] as a
    CloseTag node with that name; a pending text is emitted first, and what
    follows the [>] is read as text again. *)
Theorem plain_tags (st : bool) (name pending rest : jsstring) :
  is_string name = true ->
  is_name name = true ->
  run st (ParseState.Text pending) (str "<" ++ name ++ str ">" ++ rest)
  = flush pending
      (emit (OpenTagNode (mkTag name false ∅))
         (run st (ParseState.Text []) rest))
  /\ run st (ParseState.Text pending) (str "<" ++ name ++ str "/>" ++ rest)
     = flush pending
         (emit (OpenTagNode (mkTag name true ∅))
            (run st (ParseState.Text []) rest))
  /\ run st (ParseState.Text pending) (str "</" ++ name ++ str ">" ++ rest)
     = flush pending
         (emit (CloseTagNode name) (run st (ParseState.Text []) rest)).
Proof.
  intros Hstr Hname. destruct (loop_tag_name st name Hstr Hname) as [Hopen Hclose].
  assert (has_length name = true) as Hlen by (by destruct name).
  repeat split.
  - change (str "<" ++ name ++ str ">" ++ rest)
      with (Tokens.TagOpen :: name ++ [Tokens.TagClose] ++ rest).
    rewrite run_tag_open, (run_drained _ _ _ _ _ Hopen).
    rewrite (run_emits st _ (ParseState.Text []) [Tokens.TagClose] rest
               (OpenTagNode (mkTag name false ∅))); [done|].
    cbn [loop step]. by rewrite Hlen.
  - change (str "<" ++ name ++ str "/>" ++ rest)
      with (Tokens.TagOpen :: name ++ [Tokens.Slash; Tokens.TagClose] ++ rest).
    rewrite run_tag_open, (run_drained _ _ _ _ _ Hopen).
    rewrite (run_emits st _ (ParseState.Text [])
               [Tokens.Slash; Tokens.TagClose] rest
               (OpenTagNode (mkTag name true ∅))); [done|].
    cbn [loop step]. by rewrite Hlen.
  - change (str "</" ++ name ++ str ">" ++ rest)
      with (Tokens.TagOpen :: [Tokens.Slash] ++ name ++ [Tokens.TagClose] ++ rest).
    rewrite run_tag_open.
    rewrite (run_drained st (ParseState.TagName [])
               (ParseState.ClosingTagName []) [Tokens.Slash]) by done.
    rewrite (run_drained _ _ _ _ _ Hclose).
    rewrite (run_emits st _ (ParseState.Text []) [Tokens.TagClose] rest
               (CloseTagNode name)); [done|].
    cbn [loop step]. by rewrite Hlen.
Qed.

Lemma plain_tags_witness :
  (is_string (str "root") = true /\ is_name (str "root") = true)
  /\ run true (ParseState.Text []) (str "<" ++ str "root" ++ str ">" ++ str "x")
     = ([OpenTagNode (mkTag (str "root") false ∅); TextNode (str "x")],
        Exhausted).
Proof.
  assert (is_string (str "root") = true) as H1 by reflexivity.
  assert (is_name (str "root") = true) as H2 by reflexivity.
  split; [by split|].
  rewrite (proj1 (plain_tags true (str "root") [] (str "x") H1 H2)).
  vm_compute. reflexivity.
Defined.

(** ** Comments, CDATA sections and processing instructions *)

Lemma strict_chars (st : bool) (c : Z) (body : jsstring) :
  (st = true -> forallb isChar (c :: body) = true) ->
  st && negb (isChar c) = false /\ (st = true -> forallb isChar body = true).
Proof.
  intros H. destruct st; [|done].
  specialize (H eq_refl). cbn [forallb] in H.
  apply andb_true_iff in H as [-> H]. done.
Qed.

Lemma loop_comment_body (st : bool) (body : jsstring) : forall text,
  is_string body = true -> without Tokens.Dash body = true ->
  (st = true -> forallb isChar body = true) ->
  loop st (ParseState.Comment 0 text) body
  = Drained (ParseState.Comment 0 (text ++ body)).
Proof.
  induction body as [|c body IH]; intros text Hstr Hno Hchars; cbn [loop].
  - by rewrite app_nil_r.
  - apply is_string_cons in Hstr as [Hc Hstr].
    apply without_cons in Hno as [Hne Hno].
    apply strict_chars in Hchars as [Hchar Hchars].
    cbn [step Nat.leb Nat.eqb negb]. rewrite Hne, Hchar, Hc, !andb_false_r.
    rewrite IH by done. by rewrite <- app_assoc.
Qed.

(** X9: comment round trip.  [<!--body-->] is read as one Comment node whose
    text is exactly [body], for every body without a dash: in permissive mode
    any such body, the empty one included, and in strict mode when the body
    is not empty and holds valid characters only.  The empty comment
    [<!---->] is rejected in strict mode. *)
Theorem comment_round_trip (st : bool) (body pending rest : jsstring) :
  is_string body = true ->
  without Tokens.Dash body = true ->
  (st = true -> body <> [] /\ forallb isChar body = true) ->
  run st (ParseState.Text pending) (str "<!--" ++ body ++ str "-->" ++ rest)
  = flush pending
      (emit (CommentNode body) (run st (ParseState.Text []) rest))
  /\ run true (ParseState.Text []) (str "<!---->")
     = ([], Failed (InvalidCommentStartingCharacter Tokens.Dash)).
Proof.
  intros Hstr Hno Hstrict. split; [|by vm_compute].
  change (str "<!--" ++ body ++ str "-->" ++ rest)
    with (Tokens.TagOpen :: str "!--" ++ body ++ str "-->" ++ rest).
  rewrite run_tag_open.
  rewrite (run_drained st _ (ParseState.Comment 0 []) (str "!--")) by done.
  rewrite (run_drained _ _ _ _ _
             (loop_comment_body st body [] Hstr Hno (fun H => proj2 (Hstrict H)))).
  cbn [app].
  rewrite (run_emits st _ (ParseState.Text []) (str "-->") rest
             (CommentNode body)); [done|].
  assert (loop st (ParseState.Comment 0 body) (str "-->")
          = Returned (CommentNode (body ++ [])) (ParseState.Text []) []) as Hend.
  { destruct st; [|by vm_compute].
    destruct (Hstrict eq_refl) as [Hne _].
    destruct body as [|c body]; [done|]. by vm_compute. }
  by rewrite Hend, app_nil_r.
Qed.

Lemma comment_round_trip_witness :
  (is_string (str "a > b") = true /\ without Tokens.Dash (str "a > b") = true)
  /\ run true (ParseState.Text []) (str "<!--" ++ str "a > b" ++ str "-->" ++ [])
     = ([CommentNode (str "a > b")], Exhausted).
Proof.
  assert (is_string (str "a > b") = true) as H1 by reflexivity.
  assert (without Tokens.Dash (str "a > b") = true) as H2 by reflexivity.
  assert (true = true -> str "a > b" <> [] /\ forallb isChar (str "a > b") = true)
    as H3 by (intros _; split; [discriminate | reflexivity]).
  split; [by split|].
  rewrite (proj1 (comment_round_trip true (str "a > b") [] [] H1 H2 H3)).
  vm_compute. reflexivity.
Defined.

Lemma loop_cdata_body (st : bool) (body : jsstring) : forall text,
  is_string body = true -> without Tokens.RightSquareBracket body = true ->
  (st = true -> forallb isChar body = true) ->
  loop st (ParseState.CData text 0) body
  = Drained (ParseState.CData (text ++ body) 0).
Proof.
  induction body as [|c body IH]; intros text Hstr Hno Hchars; cbn [loop].
  - by rewrite app_nil_r.
  - apply is_string_cons in Hstr as [Hc Hstr].
    apply without_cons in Hno as [Hne Hno].
    apply strict_chars in Hchars as [Hchar Hchars].
    cbn [step Nat.leb Nat.eqb negb andb]. rewrite Hne, Hchar, Hc.
    rewrite IH by done. by rewrite <- app_assoc.
Qed.

(** X10: CDATA round trip.  [<![CDATA[body]]>] is read as one CData node whose
    text is exactly [body], for every body without [\]]; markup characters in
    the body stay as they are.  Strict mode asks for valid characters. *)
Theorem cdata_round_trip (st : bool) (body pending rest : jsstring) :
  is_string body = true ->
  without Tokens.RightSquareBracket body = true ->
  (st = true -> forallb isChar body = true) ->
  run st (ParseState.Text pending) (str "<![CDATA[" ++ body ++ str "]]>" ++ rest)
  = flush pending (emit (CDataNode body) (run st (ParseState.Text []) rest)).
Proof.
  intros Hstr Hno Hstrict.
  change (str "<![CDATA[" ++ body ++ str "]]>" ++ rest)
    with (Tokens.TagOpen :: str "![CDATA[" ++ body ++ str "]]>" ++ rest).
  rewrite run_tag_open.
  rewrite (run_drained st _ (ParseState.CData [] 0) (str "![CDATA["))
    by (by destruct st; vm_compute).
  rewrite (run_drained _ _ _ _ _ (loop_cdata_body st body [] Hstr Hno Hstrict)).
  cbn [app].
  rewrite (run_emits st _ (ParseState.Text []) (str "]]>") rest
             (CDataNode body)); [done|].
  assert (loop st (ParseState.CData body 0) (str "]]>")
          = Returned (CDataNode (body ++ [])) (ParseState.Text []) []) as Hend
    by (by destruct st; vm_compute).
  by rewrite Hend, app_nil_r.
Qed.

Lemma cdata_round_trip_witness :
  (is_string (str "1 < 2 && b") = true
   /\ without Tokens.RightSquareBracket (str "1 < 2 && b") = true)
  /\ run true (ParseState.Text [])
       (str "<![CDATA[" ++ str "1 < 2 && b" ++ str "]]>" ++ [])
     = ([CDataNode (str "1 < 2 && b")], Exhausted).
Proof.
  assert (is_string (str "1 < 2 && b") = true) as H1 by reflexivity.
  assert (without Tokens.RightSquareBracket (str "1 < 2 && b") = true) as H2
    by reflexivity.
  assert (true = true -> forallb isChar (str "1 < 2 && b") = true) as H3
    by (intros _; reflexivity).
  split; [by split|].
  rewrite (cdata_round_trip true (str "1 < 2 && b") [] [] H1 H2 H3).
  vm_compute. reflexivity.
Defined.

Lemma loop_target (st : bool) (target : jsstring) : forall name,
  is_string target = true -> no_white_space target = true ->
  loop st (ParseState.ProcessingInstructionName name) target
  = Drained (ParseState.ProcessingInstructionName (name ++ target)).
Proof.
  induction target as [|c target IH]; intros name Hstr Hno; cbn [loop].
  - by rewrite app_nil_r.
  - apply is_string_cons in Hstr as [Hc Hstr].
    unfold no_white_space in Hno. cbn [forallb] in Hno.
    apply andb_true_iff in Hno as [Hne%negb_true_iff Hno].
    cbn [step]. rewrite Hne, Hc, IH by done. by rewrite <- app_assoc.
Qed.

Lemma loop_instruction_body (st : bool) (name body : jsstring) : forall text,
  is_string body = true -> without Tokens.QuestionMark body = true ->
  (st = true -> forallb isChar body = true) ->
  loop st (ParseState.ProcessingInstruction name text false) body
  = Drained (ParseState.ProcessingInstruction name (text ++ body) false).
Proof.
  induction body as [|c body IH]; intros text Hstr Hno Hchars; cbn [loop].
  - by rewrite app_nil_r.
  - apply is_string_cons in Hstr as [Hc Hstr].
    apply without_cons in Hno as [Hne Hno].
    apply strict_chars in Hchars as [Hchar Hchars].
    cbn [step andb]. rewrite Hne, Hchar, Hc.
    rewrite IH by done. by rewrite <- app_assoc.
Qed.

(** X11: processing instruction round trip.  [<?target body?>], with one white
    space character after a target that holds no white space and is not
    [xml] in any letter case, and a body without [?], is read as one
    ProcessingInstruction node with exactly that target and that body.  The
    target may be empty and the body may hold [>] and further white space.
    Strict mode asks for valid characters in the body. *)
Theorem processing_instruction_round_trip
    (st : bool) (target body pending rest : jsstring) (w : Z) :
  is_string target = true ->
  no_white_space target = true ->
  toLowerCase target <> str "xml" ->
  isWhiteSpace w = true ->
  is_string body = true ->
  without Tokens.QuestionMark body = true ->
  (st = true -> forallb isChar body = true) ->
  run st (ParseState.Text pending)
    (str "<?" ++ target ++ [w] ++ body ++ str "?>" ++ rest)
  = flush pending
      (emit (ProcessingInstructionNode (mkProcessingInstruction target body))
         (run st (ParseState.Text []) rest)).
Proof.
  intros Htarget Hno Hxml Hw Hbody Hq Hstrict.
  change (str "<?" ++ target ++ [w] ++ body ++ str "?>" ++ rest)
    with (Tokens.TagOpen :: [Tokens.QuestionMark] ++ target ++ [w] ++ body
            ++ str "?>" ++ rest).
  rewrite run_tag_open.
  rewrite (run_drained st _ (ParseState.ProcessingInstructionName [])
             [Tokens.QuestionMark]) by done.
  rewrite (run_drained _ _ _ _ _ (loop_target st target [] Htarget Hno)).
  cbn [app].
  rewrite (run_drained st _ (ParseState.ProcessingInstruction target [] false)
             [w] (body ++ str "?>" ++ rest)).
  2: { cbn [loop step]. by rewrite Hw, bool_decide_eq_false_2. }
  rewrite (run_drained _ _ _ _ _
             (loop_instruction_body st target body [] Hbody Hq Hstrict)).
  cbn [app].
  rewrite (run_emits st _ (ParseState.Text []) (str "?>") rest
             (ProcessingInstructionNode (mkProcessingInstruction target body)));
    [done|].
  by destruct st; vm_compute.
Qed.

Lemma processing_instruction_round_trip_witness :
  (is_string (str "php") = true /\ no_white_space (str "php") = true
   /\ toLowerCase (str "php") <> str "xml" /\ isWhiteSpace 32 = true
   /\ is_string (str "echo 1 > 0;") = true
   /\ without Tokens.QuestionMark (str "echo 1 > 0;") = true)
  /\ run true (ParseState.Text [])
       (str "<?" ++ str "php" ++ [32] ++ str "echo 1 > 0;" ++ str "?>" ++ [])
     = ([ProcessingInstructionNode
           (mkProcessingInstruction (str "php") (str "echo 1 > 0;"))],
        Exhausted).
Proof.
  assert (is_string (str "php") = true) as H1 by reflexivity.
  assert (no_white_space (str "php") = true) as H2 by reflexivity.
  assert (toLowerCase (str "php") <> str "xml") as H3 by discriminate.
  assert (isWhiteSpace 32 = true) as H4 by reflexivity.
  assert (is_string (str "echo 1 > 0;") = true) as H5 by reflexivity.
  assert (without Tokens.QuestionMark (str "echo 1 > 0;") = true) as H6
    by reflexivity.
  assert (true = true -> forallb isChar (str "echo 1 > 0;") = true) as H7
    by (intros _; reflexivity).
  split; [by repeat split|].
  rewrite (processing_instruction_round_trip true (str "php")
             (str "echo 1 > 0;") [] [] 32 H1 H2 H3 H4 H5 H6 H7).
  vm_compute. reflexivity.
Defined.

(** ** Attributes *)

Lemma name_start_is_name_char (c : Z) :
  isNameStartChar c = true -> isNameChar c = true.
Proof. intros H. unfold isNameChar. by rewrite H. Qed.

Lemma quote_facts (st : bool) (q : Z) :
  is_quote st q = true ->
  opens_value st q = true /\ truthy (Some q) = true /\ isWhiteSpace q = false
  /\ (q =? Tokens.BackSlash) = false /\ (forall c, ends_value (Some q) c = (c =? q)).
Proof.
  unfold is_quote.
  intros [->%Z.eqb_eq | [->%negb_true_iff ->%Z.eqb_eq]%andb_true_iff]%orb_true_iff.
  - by destruct st.
  - done.
Qed.

Lemma loop_attribute_name (st : bool) (tagName : jsstring) (m : Attributes)
    (ks : jsstring) : forall k,
  is_string ks = true -> forallb isNameChar ks = true ->
  loop st (ParseState.TagAttributeName tagName m k) ks
  = Drained (ParseState.TagAttributeName tagName m (k ++ ks))
  /\ loop st (ParseState.XMLDeclAttributeName m k) ks
     = Drained (ParseState.XMLDeclAttributeName m (k ++ ks)).
Proof.
  induction ks as [|c ks IH]; intros k Hstr Hchars; cbn [loop].
  - by rewrite app_nil_r.
  - apply is_string_cons in Hstr as [Hc Hstr].
    cbn [forallb] in Hchars. apply andb_true_iff in Hchars as [Hchar Hchars].
    destruct (name_char_facts c Hchar) as (_ & Hws & _ & _ & _ & _ & Heq & _).
    apply Z.eqb_neq in Heq.
    destruct (IH (k ++ [c]) Hstr Hchars) as [H1 H2].
    cbn [step]. rewrite Hws, Heq, Hchar, Hc.
    rewrite <- !app_assoc in *. by split.
Qed.

Lemma loop_attribute_value (st : bool) (q : Z) (tagName k : jsstring)
    (m : Attributes) (vs : jsstring) : forall v,
  is_quote st q = true ->
  is_string vs = true ->
  without q vs = true -> without Tokens.BackSlash vs = true ->
  loop st (ParseState.TagAttributeValue tagName m k v false (Some q)) vs
  = Drained (ParseState.TagAttributeValue tagName m k (v ++ vs) false (Some q))
  /\ loop st (ParseState.XMLDeclAttributeValue m k v false (Some q)) vs
     = Drained (ParseState.XMLDeclAttributeValue m k (v ++ vs) false (Some q)).
Proof.
  intros v Hquote. revert v.
  destruct (quote_facts st q Hquote) as (_ & Htruthy & _ & _ & Hends).
  induction vs as [|c vs IH]; intros v Hstr Hq Hback; cbn [loop].
  - by rewrite app_nil_r.
  - apply is_string_cons in Hstr as [Hc Hstr].
    apply without_cons in Hq as [Hcq Hq].
    apply without_cons in Hback as [Hb Hback].
    destruct (IH (v ++ [c]) Hstr Hq Hback) as [H1 H2].
    cbn [step]. rewrite Htruthy, orb_true_r, Hb, Hends, Hcq, Hc. cbn [andb].
    rewrite <- !app_assoc in *. by split.
Qed.

Lemma loop_attribute_start (st : bool) (tagName k : jsstring) (m : Attributes) :
  is_string k = true -> is_name k = true ->
  loop st (ParseState.Tag tagName m) (k ++ [Tokens.Equals])
  = Drained (ParseState.TagAttributeValue tagName m k [] false None)
  /\ loop st (ParseState.XMLDecl m) (k ++ [Tokens.Equals])
     = Drained (ParseState.XMLDeclAttributeValue m k [] false None).
Proof.
  intros Hk Hname. destruct k as [|k0 ks]; [done|].
  apply is_string_cons in Hk as [Hk0 Hks].
  cbn [is_name] in Hname. apply andb_true_iff in Hname as [Hstart Hchars].
  destruct (name_char_facts k0 (name_start_is_name_char k0 Hstart))
    as (_ & Hws & _ & _ & Hclose & _ & _ & Hquestion & _).
  apply Z.eqb_neq in Hclose, Hquestion.
  destruct (loop_attribute_name st tagName m ks [k0] Hks Hchars) as [Hn1 Hn2].
  split.
  - cbn [app loop step]. rewrite Hclose, Hws, Hstart, Hk0.
    by rewrite (loop_seq _ _ _ _ _ Hn1).
  - cbn [app loop step]. rewrite Hws, Hquestion, Hstart, Hk0.
    by rewrite (loop_seq _ _ _ _ _ Hn2).
Qed.

Lemma loop_attribute_quotes (st : bool) (q : Z) (tagName k : jsstring)
    (m : Attributes) :
  is_quote st q = true ->
  (loop st (ParseState.TagAttributeValue tagName m k [] false None) [q]
   = Drained (ParseState.TagAttributeValue tagName m k [] false (Some q))
   /\ loop st (ParseState.XMLDeclAttributeValue m k [] false None) [q]
      = Drained (ParseState.XMLDeclAttributeValue m k [] false (Some q)))
  /\ forall v,
       loop st (ParseState.TagAttributeValue tagName m k v false (Some q)) [q]
       = Drained (ParseState.Tag tagName (<[k := v]> m))
       /\ loop st (ParseState.XMLDeclAttributeValue m k v false (Some q)) [q]
          = Drained (ParseState.XMLDecl (<[k := v]> m)).
Proof.
  intros Hquote.
  destruct (quote_facts st q Hquote) as (Hopen & Htruthy & Hqws & Hqb & Hends).
  split.
  - cbn [loop step has_length length Nat.eqb negb truthy orb].
    by rewrite Hqws, Hopen.
  - intros v. cbn [loop step].
    by rewrite Htruthy, orb_true_r, Hqb, Hends, Z.eqb_refl.
Qed.

Lemma loop_attribute_body (st : bool) (q : Z) (tagName : jsstring)
    (m : Attributes) (a : jsstring * jsstring) :
  is_quote st q = true ->
  is_attribute q a = true ->
  loop st (ParseState.Tag tagName m) (attribute_body q a)
  = Drained (ParseState.Tag tagName (<[a.1 := a.2]> m))
  /\ loop st (ParseState.XMLDecl m) (attribute_body q a)
     = Drained (ParseState.XMLDecl (<[a.1 := a.2]> m)).
Proof.
  intros Hquote. destruct a as [k v]. unfold is_attribute, attribute_body.
  cbn [fst snd].
  intros ((((Hk & Hname)%andb_true_iff & Hv)%andb_true_iff
           & Hq)%andb_true_iff & Hback)%andb_true_iff.
  destruct (loop_attribute_start st tagName k m Hk Hname) as [Hs1 Hs2].
  destruct (loop_attribute_quotes st q tagName k m Hquote)
    as [[Ho1 Ho2] Hend].
  destruct (loop_attribute_value st q tagName k m v [] Hquote Hv Hq Hback)
    as [Hv1 Hv2].
  assert (k ++ [Tokens.Equals; q] ++ v ++ [q]
          = (k ++ [Tokens.Equals]) ++ [q] ++ v ++ [q]) as ->
    by (by rewrite <- app_assoc).
  split.
  - rewrite (loop_seq _ _ _ _ _ Hs1), (loop_seq _ _ _ _ _ Ho1).
    rewrite (loop_seq _ _ _ _ _ Hv1). apply Hend.
  - rewrite (loop_seq _ _ _ _ _ Hs2), (loop_seq _ _ _ _ _ Ho2).
    rewrite (loop_seq _ _ _ _ _ Hv2). apply Hend.
Qed.

Lemma loop_attributes (st : bool) (q : Z) (tagName : jsstring)
    (l : list (jsstring * jsstring)) : forall m,
  is_quote st q = true ->
  forallb (is_attribute q) l = true ->
  loop st (ParseState.Tag tagName m) (attributes_text q l)
  = Drained (ParseState.Tag tagName (assign m l))
  /\ loop st (ParseState.XMLDecl m) (attributes_text q l)
     = Drained (ParseState.XMLDecl (assign m l)).
Proof.
  induction l as [|a l IH]; intros m Hquote Hl; [done|].
  cbn [forallb] in Hl. apply andb_true_iff in Hl as [Ha Hl].
  destruct (loop_attribute_body st q tagName m a Hquote Ha) as [H1 H2].
  destruct (IH (<[a.1 := a.2]> m) Hquote Hl) as [IH1 IH2].
  unfold attributes_text, attribute_text in *. cbn [map concat app loop].
  change (step st (ParseState.Tag tagName m) 32)
    with (Continue (ParseState.Tag tagName m)).
  change (step st (ParseState.XMLDecl m) 32)
    with (Continue (ParseState.XMLDecl m)).
  cbv iota. by rewrite (loop_seq _ _ _ _ _ H1), (loop_seq _ _ _ _ _ H2).
Qed.

(** X5: attributes of an open tag.  [<name k1='v1' k2='v2' ...>], for XML
    names and values without the quotation mark and without a backslash, is
    read as one OpenTag node whose mapping holds the attributes assigned in
    the order written, so that of two attributes with the same name the later
    one wins.  The quotation mark is the single quote in either mode or the
    double quote in permissive mode. *)
Theorem open_tag_with_attributes
    (st : bool) (q : Z) (name pending rest : jsstring)
    (l : list (jsstring * jsstring)) :
  is_quote st q = true ->
  is_string name = true ->
  is_name name = true ->
  forallb (is_attribute q) l = true ->
  run st (ParseState.Text pending)
    (str "<" ++ name ++ attributes_text q l ++ str ">" ++ rest)
  = flush pending
      (emit (OpenTagNode (mkTag name false (assign ∅ l)))
         (run st (ParseState.Text []) rest)).
Proof.
  intros Hquote Hstr Hname Hl.
  destruct (loop_tag_name st name Hstr Hname) as [Hopen _].
  assert (has_length name = true) as Hlen by (by destruct name).
  change (str "<" ++ name ++ attributes_text q l ++ str ">" ++ rest)
    with (Tokens.TagOpen :: name ++ attributes_text q l ++ [Tokens.TagClose] ++ rest).
  rewrite run_tag_open, (run_drained _ _ _ _ _ Hopen).
  destruct l as [|a l].
  - cbn [attributes_text map concat app assign foldl].
    rewrite (run_emits st _ (ParseState.Text []) [Tokens.TagClose] rest
               (OpenTagNode (mkTag name false ∅))); [done|].
    cbn [loop step]. by rewrite Hlen.
  - cbn [forallb] in Hl. apply andb_true_iff in Hl as [Ha Hl].
    destruct (loop_attribute_body st q name ∅ a Hquote Ha) as [Hbody _].
    destruct (loop_attributes st q name l (<[a.1 := a.2]> ∅) Hquote Hl)
      as [Hrest _].
    unfold attributes_text, attribute_text in *.
    cbn [map concat app assign foldl]. rewrite <- !app_assoc.
    rewrite (run_continue st (ParseState.TagName name) (ParseState.Tag name ∅)).
    2: { cbn [step]. by rewrite Hlen. }
    rewrite (run_drained _ _ _ _ _ Hbody), (run_drained _ _ _ _ _ Hrest).
    by rewrite (run_emits st _ (ParseState.Text []) [Tokens.TagClose] rest
                  (OpenTagNode (mkTag name false
                     (foldl (fun m a => <[a.1 := a.2]> m) (<[a.1 := a.2]> ∅) l)))).
Qed.

Lemma open_tag_with_attributes_witness :
  (is_quote false 34 = true
   /\ is_string (str "a") = true /\ is_name (str "a") = true
   /\ forallb (is_attribute 34)
        [(str "b", str "1"); (str "c", str "x>y"); (str "b", str "it's")] = true)
  /\ run false (ParseState.Text [])
       (str "<" ++ str "a"
          ++ attributes_text 34
               [(str "b", str "1"); (str "c", str "x>y"); (str "b", str "it's")]
          ++ str ">" ++ [])
     = ([OpenTagNode
           (mkTag (str "a") false
              (<[str "b" := str "it's"]> (<[str "c" := str "x>y"]> ∅)))],
        Exhausted).
Proof.
  assert (is_quote false 34 = true) as H0 by reflexivity.
  assert (is_string (str "a") = true) as H1 by reflexivity.
  assert (is_name (str "a") = true) as H2 by reflexivity.
  assert (forallb (is_attribute 34)
            [(str "b", str "1"); (str "c", str "x>y"); (str "b", str "it's")]
          = true) as H3 by reflexivity.
  split; [by repeat split|].
  rewrite (open_tag_with_attributes false 34 (str "a") [] [] _ H0 H1 H2 H3).
  vm_compute. reflexivity.
Defined.

(** X12: the XML declaration.  [<?xml k1='v1' ...?>], with the target [xml] in
    any letter case and at least one attribute, is read as one XMLDecl node
    whose mapping holds the attributes assigned in the order written; no
    ProcessingInstruction node is emitted for it. *)
Theorem xml_declaration
    (st : bool) (q : Z) (target pending rest : jsstring)
    (l : list (jsstring * jsstring)) :
  is_quote st q = true ->
  is_string target = true ->
  no_white_space target = true ->
  toLowerCase target = str "xml" ->
  l <> [] ->
  forallb (is_attribute q) l = true ->
  run st (ParseState.Text pending)
    (str "<?" ++ target ++ attributes_text q l ++ str "?>" ++ rest)
  = flush pending
      (emit (XMLDeclNode (assign ∅ l)) (run st (ParseState.Text []) rest)).
Proof.
  intros Hquote Htarget Hno Hxml Hne Hl.
  destruct l as [|a l]; [done|].
  cbn [forallb] in Hl. apply andb_true_iff in Hl as [Ha Hl].
  destruct (loop_attribute_body st q [] ∅ a Hquote Ha) as [_ Hbody].
  destruct (loop_attributes st q [] l (<[a.1 := a.2]> ∅) Hquote Hl) as [_ Hrest].
  unfold attributes_text, attribute_text in *.
  cbn [map concat assign foldl].
  change (str "<?") with [Tokens.TagOpen; Tokens.QuestionMark]. cbn [app].
  rewrite run_tag_open.
  rewrite (run_continue st _ (ParseState.ProcessingInstructionName [])) by done.
  rewrite (run_drained _ _ _ _ _ (loop_target st target [] Htarget Hno)).
  cbn [app].
  rewrite (run_continue st _ (ParseState.XMLDecl ∅)).
  2: { cbn [step]. change (isWhiteSpace 32) with true.
       by rewrite bool_decide_eq_true_2. }
  rewrite <- app_assoc.
  rewrite (run_drained _ _ _ _ _ Hbody), (run_drained _ _ _ _ _ Hrest).
  by rewrite (run_emits st _ (ParseState.Text []) (str "?>") rest
                (XMLDeclNode
                   (foldl (fun m a => <[a.1 := a.2]> m) (<[a.1 := a.2]> ∅) l))).
Qed.

Lemma xml_declaration_witness :
  (is_quote false 34 = true
   /\ is_string (str "XML") = true /\ no_white_space (str "XML") = true
   /\ toLowerCase (str "XML") = str "xml"
   /\ forallb (is_attribute 34)
        [(str "version", str "1.0"); (str "encoding", str "UTF-8")] = true)
  /\ run false (ParseState.Text [])
       (str "<?" ++ str "XML"
          ++ attributes_text 34
               [(str "version", str "1.0"); (str "encoding", str "UTF-8")]
          ++ str "?>" ++ [])
     = ([XMLDeclNode (<[str "encoding" := str "UTF-8"]>
                        {[str "version" := str "1.0"]})], Exhausted).
Proof.
  assert (is_quote false 34 = true) as H0 by reflexivity.
  assert (is_string (str "XML") = true) as H1 by reflexivity.
  assert (no_white_space (str "XML") = true) as H2 by reflexivity.
  assert (toLowerCase (str "XML") = str "xml") as H3 by reflexivity.
  assert ([(str "version", str "1.0"); (str "encoding", str "UTF-8")] <> [])
    as H4 by discriminate.
  assert (forallb (is_attribute 34)
            [(str "version", str "1.0"); (str "encoding", str "UTF-8")] = true)
    as H5 by reflexivity.
  split; [by repeat split|].
  rewrite (xml_declaration false 34 (str "XML") [] [] _ H0 H1 H2 H3 H4 H5).
  vm_compute. reflexivity.
Defined.

(** ** What the emitted nodes look like *)

Section Shapes.

(** A property of nodes and a property of states such that the transition
    keeps the second and emits only nodes with the first; both hold of the
    flushed text and the initial state. *)
Variable node_ok : Node -> bool.
Variable state_ok : ParseState.t -> bool.
Hypothesis step_ok : forall st s c,
  state_ok s = true ->
  match step st s c with
  | Continue s' => state_ok s' = true
  | Return v s' => node_ok v = true /\ state_ok s' = true
  | Throw _ s' => state_ok s' = true
  end.
Hypothesis text_ok : forall text,
  (0 <? length text)%nat = true -> node_ok (TextNode text) = true.
Hypothesis initial_ok : state_ok (ParseState.Text []) = true.

Lemma loop_shapes (st : bool) (b : list Z) : forall s,
  state_ok s = true ->
  match loop st s b with
  | Drained s' => state_ok s' = true
  | Returned v s' _ => node_ok v = true /\ state_ok s' = true
  | Thrown _ s' _ => state_ok s' = true
  end.
Proof.
  induction b as [|c b IH]; intros s Hs; cbn [loop]; [done|].
  pose proof (step_ok st s c Hs) as Hstep.
  destruct (step st s c) as [s'|v s'|e s']; [by apply IH | done | done].
Qed.

Lemma next_shapes (p : Parser) :
  state_ok (state p) = true ->
  state_ok (state (next p).2) = true
  /\ match (next p).1 with
     | Value v => node_ok v = true
     | _ => True
     end.
Proof.
  intros Hs. unfold next.
  pose proof (loop_shapes (strict p) (buffer p) (state p) Hs) as Hloop.
  destruct (loop (strict p) (state p) (buffer p)) as [s|v s rest|e s rest];
    cbn [fst snd state]; [|tauto|tauto].
  destruct (closed p); cbn [fst snd state]; [|tauto].
  destruct s; cbn [fst snd state]; try tauto.
  destruct (0 <? length text)%nat eqn:Htext; cbn [fst snd state]; [|tauto].
  split; [done | by apply text_ok].
Qed.

Lemma drain_shapes : forall (n : nat) (p : Parser),
  state_ok (state p) = true -> forallb node_ok (drain n p).1.1 = true.
Proof.
  induction n as [|n IH]; intros p Hs; [done|]. rewrite drain_S.
  destruct (next_shapes p Hs) as [Hs' Hv].
  destruct (next p) as [[v| |e] p']; cbn [fst snd] in *; try done.
  specialize (IH p' Hs'). destruct (drain n p') as [[nodes out] p''].
  cbn [fst snd forallb] in *. by rewrite Hv, IH.
Qed.

Lemma parseString_shapes (input : jsstring) (options : ParserOptions) :
  forallb node_ok
    (run (default false (options_strict options)) (ParseState.Text []) input).1
  = true
  /\ match parseString input options with
     | inr (nodes, _) => forallb node_ok nodes = true
     | inl e => e = RangeError
     end.
Proof.
  assert (forallb node_ok
            (run (default false (options_strict options))
               (ParseState.Text []) input).1 = true) as Hrun
    by (unfold run, drain_all; by apply drain_shapes).
  split; [exact Hrun|].
  rewrite parseString_run. destruct (fits input); [|done].
  by destruct (run _ _ _) as [nodes out].
Qed.

End Shapes.

Lemma has_length_app (s t : jsstring) :
  has_length t = true -> has_length (s ++ t) = true.
Proof. destruct t; [done|]. by destruct s. Qed.

Lemma has_length_fromCharCode (s : jsstring) (c : Z) :
  has_length (s ++ fromCharCode c) = true.
Proof. by apply has_length_app. Qed.

Lemma step_keeps_name (st : bool) (s : ParseState.t) (c : Z) :
  holds_name s = true ->
  match step st s c with
  | Continue s' => holds_name s' = true
  | Return v s' => named v = true /\ holds_name s' = true
  | Throw _ s' => holds_name s' = true
  end.
Proof.
  destruct s; cbn [step holds_name]; intros Hs;
    repeat case_match; simplify_eq; simpl;
    rewrite ?has_length_fromCharCode; try done.
  by destruct text.
Qed.

Lemma step_keeps_target (st : bool) (s : ParseState.t) (c : Z) :
  holds_target s = true ->
  match step st s c with
  | Continue s' => holds_target s' = true
  | Return v s' => targeted v = true /\ holds_target s' = true
  | Throw _ s' => holds_target s' = true
  end.
Proof.
  destruct s; cbn [step holds_target]; intros Hs;
    repeat case_match; simplify_eq; simpl;
    try done.
  match goal with H : bool_decide _ = false |- _ => by rewrite H end.
Qed.

(** X13: whatever the input and the mode, no emitted Text node has empty text
    and no emitted OpenTag or CloseTag node has an empty name: this holds of
    the nodes read from a closed buffer that holds the input, and so of the
    nodes of [parse], which otherwise throws in [write] and emits none. *)
Theorem nodes_are_named (input : jsstring) (options : ParserOptions) :
  forallb named
    (run (default false (options_strict options)) (ParseState.Text []) input).1
  = true
  /\ match parseString input options with
     | inr (nodes, _) => forallb named nodes = true
     | inl e => e = RangeError
     end.
Proof.
  apply (parseString_shapes named holds_name); try done.
  - apply step_keeps_name.
  - intros text Htext. by destruct text.
Qed.

(** X14: whatever the input and the mode, no emitted ProcessingInstruction node
    has the target [xml] in any letter case: such an instruction is read as
    the XML declaration.  This holds of the nodes read from a closed buffer
    that holds the input, and so of the nodes of [parse], which otherwise
    throws in [write] and emits none. *)
Theorem xml_is_never_a_processing_instruction
    (input : jsstring) (options : ParserOptions) :
  forallb targeted
    (run (default false (options_strict options)) (ParseState.Text []) input).1
  = true
  /\ match parseString input options with
     | inr (nodes, _) => forallb targeted nodes = true
     | inl e => e = RangeError
     end.
Proof.
  apply (parseString_shapes targeted holds_target); try done.
  apply step_keeps_target.
Qed.

(** ** Strict and permissive *)

Lemma step_relaxed (s : ParseState.t) (c : Z) :
  match step true s c with
  | Continue s' => step false s c = Continue s'
  | Return v s' => step false s c = Return v s'
  | Throw _ _ => True
  end.
Proof.
  destruct s; cbn [step andb opens_value]; try (repeat case_match; done).
  - destruct (has_length attributeValue || truthy quotationMark);
      [repeat case_match; done|].
    destruct (isWhiteSpace c); [done|].
    destruct (c =? Tokens.SingleQuote) eqn:Hq; [|done].
    unfold isQuotationMark. by rewrite Hq, orb_true_r.
  - destruct (has_length attributeValue || truthy quotationMark);
      [repeat case_match; done|].
    destruct (isWhiteSpace c); [done|].
    destruct (c =? Tokens.SingleQuote) eqn:Hq; [|done].
    unfold isQuotationMark. by rewrite Hq, orb_true_r.
Qed.

Lemma loop_relaxed (b : list Z) : forall s,
  match loop true s b with
  | Drained s' => loop false s b = Drained s'
  | Returned v s' rest => loop false s b = Returned v s' rest
  | Thrown _ _ _ => True
  end.
Proof.
  induction b as [|c b IH]; intros s; cbn [loop]; [done|].
  pose proof (step_relaxed s c) as Hstep.
  destruct (step true s c) as [s'|v s'|e s']; rewrite ?Hstep; [|done|done].
  apply IH.
Qed.

Lemma next_relaxed (p : Parser) :
  strict p = true ->
  match next p with
  | (Raise UnexpectedEndOfStream, p') =>
      loop true (state p) (buffer p) = Drained (state p') ->
      next (relaxed p) = (Raise UnexpectedEndOfStream, relaxed p')
  | (Raise _, _) => True
  | (r, p') => next (relaxed p) = (r, relaxed p')
  end.
Proof.
  destruct p as [s b c st]. cbn [strict]. intros ->.
  unfold next, relaxed. cbn [state buffer closed strict].
  pose proof (loop_relaxed b s) as Hloop.
  destruct (loop true s b) as [s'|v s' rest|e s' rest]; rewrite ?Hloop.
  - destruct c; [|done]. destruct s'; try done.
    by destruct (0 <? length text)%nat.
  - done.
  - by destruct e.
Qed.

Lemma drain_relaxed : forall (n : nat) (p p' : Parser) (nodes : list Node),
  strict p = true ->
  drain n p = (nodes, Exhausted, p') ->
  drain n (relaxed p) = (nodes, Exhausted, relaxed p').
Proof.
  induction n as [|n IH]; intros p p' nodes Hst; [done|].
  rewrite !drain_S. pose proof (next_relaxed p Hst) as Hnext.
  assert (strict (next p).2 = true) as Hst'.
  { unfold next. by destruct (loop _ _ _); repeat case_match. }
  destruct (next p) as [[v| |e] q]; cbn [snd] in Hst'.
  - rewrite Hnext. specialize (IH q).
    destruct (drain n q) as [[nodes1 out1] q1].
    intros [= <- -> <-]. by rewrite (IH q1 nodes1).
  - rewrite Hnext. by intros [= <- <-].
  - done.
Qed.

(** X15: permissive mode accepts whatever strict mode accepts, with the same
    result: when a strict parse of an input ends without an exception, the
    permissive parse of the same input gives the same nodes and ends without
    an exception too. *)
Theorem strict_success_is_permissive_success
    (input : jsstring) (nodes : list Node) :
  parseString input strictly = inr (nodes, Exhausted) ->
  parseString input permissive = inr (nodes, Exhausted).
Proof.
  rewrite !parseString_run. destruct (fits input); [|done].
  unfold run, drain_all.
  change (default false (options_strict strictly)) with true.
  change (default false (options_strict permissive)) with false.
  set (P := mkParser (ParseState.Text []) input true true).
  change (mkParser (ParseState.Text []) input true false) with (relaxed P).
  change (calls (relaxed P)) with (calls P).
  destruct (drain (calls P) P) as [[nodes1 out1] p1] eqn:Hd.
  cbn [fst]. intros H. simplify_eq.
  by rewrite (drain_relaxed (calls P) P p1 nodes eq_refl Hd).
Qed.

Lemma strict_success_is_permissive_success_witness :
  parseString (str "<a b='c'>d</a>") strictly
  = inr ([OpenTagNode (mkTag (str "a") false {[str "b" := str "c"]});
          TextNode (str "d"); CloseTagNode (str "a")], Exhausted)
  /\ parseString (str "<a b='c'>d</a>") permissive
     = inr ([OpenTagNode (mkTag (str "a") false {[str "b" := str "c"]});
             TextNode (str "d"); CloseTagNode (str "a")], Exhausted).
Proof.
  assert (parseString (str "<a b='c'>d</a>") strictly
          = inr ([OpenTagNode (mkTag (str "a") false {[str "b" := str "c"]});
                  TextNode (str "d"); CloseTagNode (str "a")], Exhausted))
    as H by (vm_compute; reflexivity).
  split; [exact H|].
  exact (strict_success_is_permissive_success _ _ H).
Defined.

(** ** The end of the input *)

Lemma escapeChar_error (c : Z) (e : Error) :
  escapeChar c = inl e -> e = UnexpectedEscapeCharacter c.
Proof. unfold escapeChar. repeat case_match; congruence. Qed.

Lemma step_never_ends (st : bool) (s s' : ParseState.t) (c : Z) :
  step st s c <> Throw UnexpectedEndOfStream s'.
Proof.
  destruct s; cbn [step]; repeat case_match; try done;
    match goal with
    | H : escapeChar _ = inl _ |- _ =>
        rewrite (escapeChar_error _ _ H); congruence
    end.
Qed.

Lemma loop_never_ends (st : bool) (b : list Z) : forall s s' rest,
  loop st s b <> Thrown UnexpectedEndOfStream s' rest.
Proof.
  induction b as [|c b IH]; intros s s' rest; cbn [loop]; [done|].
  destruct (step st s c) as [s1|v s1|e s1] eqn:Hstep; [apply IH | done |].
  intros H. simplify_eq. by eapply step_never_ends.
Qed.

(** X16: the end is final.  Once a closed parser has answered [done], or has
    thrown 'unexpected end of stream', every further call of [next] gives
    the same answer and leaves the parser as it is. *)
Theorem end_is_final (p p' : Parser) (r : NextResult) :
  closed p = true ->
  next p = (r, p') ->
  r = Done \/ r = Raise UnexpectedEndOfStream ->
  next p' = (r, p').
Proof.
  destruct p as [s b c st]. cbn [closed]. intros ->. unfold next.
  cbn [state buffer closed strict].
  pose proof (loop_never_ends st b s) as Hnever.
  destruct (loop st s b) as [s1|v s1 rest|e s1 rest].
  - destruct s1; try (intros [= <- <-] _; done).
    destruct (0 <? length text)%nat eqn:Htext.
    + intros [= <- <-] [|]; done.
    + intros [= <- <-] _. cbn [state buffer closed strict loop]. by rewrite Htext.
  - intros [= <- <-] [|]; done.
  - intros [= <- <-] [|[= ->]]; [done|]. by destruct (Hnever s1 rest).
Qed.

Lemma end_is_final_witness :
  next (mkParser (ParseState.Text []) (str "<roo") true false)
  = (Raise UnexpectedEndOfStream,
     mkParser (ParseState.TagName (str "roo")) [] true false)
  /\ next (mkParser (ParseState.TagName (str "roo")) [] true false)
     = (Raise UnexpectedEndOfStream,
        mkParser (ParseState.TagName (str "roo")) [] true false).
Proof.
  assert (next (mkParser (ParseState.Text []) (str "<roo") true false)
          = (Raise UnexpectedEndOfStream,
             mkParser (ParseState.TagName (str "roo")) [] true false)) as H
    by reflexivity.
  split; [exact H|].
  exact (end_is_final
           (mkParser (ParseState.Text []) (str "<roo") true false) _ _
           eq_refl H (or_intror eq_refl)).
Defined.

Lemma next_keeps_flags (p : Parser) :
  closed (next p).2 = closed p /\ strict (next p).2 = strict p.
Proof. unfold next. by destruct (loop _ _ _); repeat case_match. Qed.

Lemma open_drain_waits : forall (n : nat) (p : Parser),
  closed p = false -> (drain n p).1.2 <> Failed UnexpectedEndOfStream.
Proof.
  induction n as [|n IH]; intros p Hopen; [done|]. rewrite drain_S.
  pose proof (next_keeps_flags p) as [Hflag _].
  pose proof (loop_never_ends (strict p) (buffer p) (state p)) as Hnever.
  assert ((next p).1 <> Raise UnexpectedEndOfStream) as Hne.
  { unfold next. rewrite Hopen.
    destruct (loop _ _ _) as [s1|v s1 rest|e s1 rest]; cbn [fst]; try done.
    intros [= ->]. by destruct (Hnever s1 rest). }
  destruct (next p) as [[v| |e] p']; cbn [fst snd] in *.
  - specialize (IH p' ltac:(congruence)).
    by destruct (drain n p') as [[nodes out] p''].
  - done.
  - congruence.
Qed.

(** X17: an open parser waits.  As long as [close] was not called, draining
    never throws 'unexpected end of stream', whatever was written: input that
    stops inside a construct is kept for the next [write].  (The writes
    themselves go through, or the engine throws in a [write] that is given
    more than a call takes.) *)
Theorem open_parser_waits (options : ParserOptions) (chunks : list jsstring) :
  match write_chunks (new_Parser options) chunks with
  | inr p => (drain_all p).2 <> Failed UnexpectedEndOfStream
  | inl e => e = RangeError
  end.
Proof.
  assert (forall p : Parser,
            closed p = false ->
            match write_chunks p chunks with
            | inr p' => closed p' = false
            | inl e => e = RangeError
            end) as Hopen.
  { induction chunks as [|data chunks IH]; intros p Hp; cbn [write_chunks];
      [done|].
    destruct (fits data) eqn:Hfits.
    - rewrite write_open by done. cbn [bind]. by apply IH.
    - by rewrite write_too_long. }
  specialize (Hopen (new_Parser options) eq_refl).
  destruct (write_chunks (new_Parser options) chunks) as [e|p]; [done|].
  by apply open_drain_waits.
Qed.

(** ** What a finished run leaves *)

Lemma drain_exhausted : forall (n : nat) (p p' : Parser) (nodes : list Node),
  closed p = true -> drain n p = (nodes, Exhausted, p') -> at_rest p'.
Proof.
  induction n as [|n IH]; intros p p' nodes Hclosed; [done|]. rewrite drain_S.
  pose proof (next_keeps_flags p) as [Hflag _].
  destruct (next p) as [[v| |e] q] eqn:Hnext; cbn [snd] in Hflag.
  - specialize (IH q). destruct (drain n q) as [[nodes1 out1] q1].
    intros [= <- -> <-]. apply (IH q1 nodes1); congruence.
  - intros [= <- <-]. revert Hnext. unfold next. rewrite Hclosed.
    destruct (loop _ _ _) as [s1|v s1 rest|e s1 rest]; try done.
    destruct s1; try done.
    destruct (0 <? length text)%nat eqn:Htext; [done|].
    intros [= <-]. split; [done|]. cbn [state]. by destruct text.
  - done.
Qed.

(** X18: nothing is left behind.  When the drain of a closed parser ends with
    [done] and not with an exception, the whole buffer was read and the parser
    is back in the Text state with no text pending. *)
Theorem exhausted_means_all_read (p p' : Parser) (nodes : list Node) :
  closed p = true ->
  drain (calls p) p = (nodes, Exhausted, p') ->
  buffer p' = [] /\ state p' = ParseState.Text [].
Proof. intros Hclosed Hdrain. by apply (drain_exhausted _ _ _ _ Hclosed Hdrain). Qed.

Lemma exhausted_means_all_read_witness :
  drain 9 (mkParser (ParseState.Text []) (str "<a>text") true false)
  = ([OpenTagNode (mkTag (str "a") false ∅); TextNode (str "text")], Exhausted,
     mkParser (ParseState.Text []) [] true false)
  /\ buffer (mkParser (ParseState.Text []) [] true false) = []
  /\ state (mkParser (ParseState.Text []) [] true false) = ParseState.Text [].
Proof.
  assert (drain (calls (mkParser (ParseState.Text []) (str "<a>text") true false))
            (mkParser (ParseState.Text []) (str "<a>text") true false)
          = ([OpenTagNode (mkTag (str "a") false ∅); TextNode (str "text")],
             Exhausted, mkParser (ParseState.Text []) [] true false)) as H
    by (vm_compute; reflexivity).
  split; [exact H|].
  exact (exhausted_means_all_read
           (mkParser (ParseState.Text []) (str "<a>text") true false) _ _
           eq_refl H).
Defined.

Lemma drain_count : forall (n : nat) (p : Parser),
  (length (drain n p).1.1 <= S (length (buffer p)))%nat
  /\ (at_rest p -> (drain n p).1.1 = []).
Proof.
  induction n as [|n IH]; intros p; [cbn; split; [lia|done]|].
  split.
  - rewrite drain_S. destruct (next p) as [[v| |e] p'] eqn:Hnext;
      [|cbn; lia|cbn; lia].
    destruct (IH p') as [Hlen Hrest].
    destruct (next_value_progress _ _ _ Hnext) as [Hlt|Hat].
    + destruct (drain n p') as [[nodes out] p'']. cbn [fst length] in *. lia.
    + specialize (Hrest Hat).
      destruct (drain n p') as [[nodes out] p'']. cbn [fst] in *. subst.
      cbn. lia.
  - intros Hat. by rewrite drain_at_rest.
Qed.

(** X19: a drain gives at most one node per buffered code unit, and one more
    for the text that [close] flushes. *)
Theorem node_count_bound (p : Parser) :
  (length (drain_all p).1 <= S (length (buffer p)))%nat.
Proof. unfold drain_all. apply drain_count. Qed.

(** ** Escapes, and what strict mode asks of a value *)

Lemma run_throws (st : bool) (s s' : ParseState.t) (b1 b2 : list Z) (e : Error) :
  loop st s b1 = Thrown e s' [] ->
  run st s (b1 ++ b2) = ([], Failed e).
Proof.
  intros H. unfold run. rewrite drain_all_next. unfold next.
  cbn [state buffer closed strict]. by rewrite loop_app, H.
Qed.

Lemma escape_cons (c : Z) (value : jsstring) :
  escape (c :: value)
  = (if c =? 92 then [92; 92]
     else if c =? 10 then [92; 110]
     else if c =? 13 then [92; 114]
     else [c]) ++ escape value.
Proof. reflexivity. Qed.

Lemma loop_escaped_value (st : bool) (q : Z) (tagName k : jsstring)
    (m : Attributes) (value : jsstring) : forall v,
  is_quote st q = true ->
  is_string value = true -> without q value = true ->
  loop st (ParseState.TagAttributeValue tagName m k v false (Some q))
    (escape value)
  = Drained (ParseState.TagAttributeValue tagName m k (v ++ value) false (Some q)).
Proof.
  intros v Hquote. revert v.
  destruct (quote_facts st q Hquote) as (_ & Htruthy & _ & _ & Hends).
  induction value as [|c value IH]; intros v Hstr Hq; cbn [loop].
  - by rewrite app_nil_r.
  - apply is_string_cons in Hstr as [Hc Hstr].
    apply without_cons in Hq as [Hcq Hq].
    specialize (IH (v ++ [c]) Hstr Hq). rewrite <- app_assoc in IH.
    rewrite escape_cons.
    destruct (c =? 92) eqn:H92; [apply Z.eqb_eq in H92 as ->|].
    { cbn [app loop step]. rewrite Htruthy, orb_true_r.
      change (92 =? Tokens.BackSlash) with true. cbn [andb].
      cbn [loop step]. rewrite Htruthy, orb_true_r. exact IH. }
    destruct (c =? 10) eqn:H10; [apply Z.eqb_eq in H10 as ->|].
    { cbn [app loop step]. rewrite Htruthy, orb_true_r.
      change (92 =? Tokens.BackSlash) with true. cbn [andb].
      cbn [loop step]. rewrite Htruthy, orb_true_r. exact IH. }
    destruct (c =? 13) eqn:H13; [apply Z.eqb_eq in H13 as ->|].
    { cbn [app loop step]. rewrite Htruthy, orb_true_r.
      change (92 =? Tokens.BackSlash) with true. cbn [andb].
      cbn [loop step]. rewrite Htruthy, orb_true_r. exact IH. }
    cbn [app loop step]. rewrite Htruthy, orb_true_r.
    change Tokens.BackSlash with 92. rewrite H92, Hends, Hcq, Hc.
    cbn [andb]. exact IH.
Qed.

(** X6: escaped attribute values.  A quoted value written with [\\] for a
    backslash, [\n] for a line feed and [\r] for a carriage return comes back
    as the value itself, for every value that does not hold the quotation
    mark; a backslash in front of any other character makes the pull throw
    'unexpected escape character'. *)
Theorem escaped_attribute_value
    (st : bool) (q : Z) (name k value pending rest : jsstring) (c : Z) :
  is_quote st q = true ->
  is_string name = true -> is_name name = true ->
  is_string k = true -> is_name k = true ->
  is_string value = true -> without q value = true ->
  c <> 92 -> c <> 110 -> c <> 114 ->
  run st (ParseState.Text pending)
    (str "<" ++ name ++ str " " ++ k ++ [Tokens.Equals; q] ++ escape value
       ++ [q; Tokens.TagClose] ++ rest)
  = flush pending
      (emit (OpenTagNode (mkTag name false {[k := value]}))
         (run st (ParseState.Text []) rest))
  /\ run st (ParseState.Text pending)
       (str "<" ++ name ++ str " " ++ k ++ [Tokens.Equals; q] ++ escape value
          ++ [Tokens.BackSlash; c] ++ rest)
     = flush pending ([], Failed (UnexpectedEscapeCharacter c)).
Proof.
  intros Hquote Hstr Hname Hk Hkname Hvalue Hq H92 H110 H114.
  destruct (loop_tag_name st name Hstr Hname) as [Hopen _].
  assert (has_length name = true) as Hlen by (by destruct name).
  destruct (loop_attribute_start st name k ∅ Hk Hkname) as [Hstart _].
  destruct (loop_attribute_quotes st q name k ∅ Hquote) as [[Hopens _] Hend].
  pose proof (loop_escaped_value st q name k ∅ value [] Hquote Hvalue Hq) as Hv.
  destruct (quote_facts st q Hquote) as (_ & Htruthy & _ & _ & _).
  assert (forall tail,
            run st (ParseState.Text pending)
              (str "<" ++ name ++ str " " ++ k ++ [Tokens.Equals; q]
                 ++ escape value ++ tail)
            = flush pending
                (run st (ParseState.TagAttributeValue name ∅ k value false
                           (Some q)) tail)) as Hprefix.
  { intros tail.
    change (str "<" ++ name ++ str " " ++ k ++ [Tokens.Equals; q]
              ++ escape value ++ tail)
      with (Tokens.TagOpen :: name ++ [32] ++ k ++ [Tokens.Equals] ++ [q]
              ++ escape value ++ tail).
    rewrite run_tag_open, (run_drained _ _ _ _ _ Hopen). cbn [app].
    rewrite (run_continue st (ParseState.TagName name) (ParseState.Tag name ∅)).
    2: { cbn [step]. by rewrite Hlen. }
    change (k ++ Tokens.Equals :: q :: escape value ++ tail)
      with (k ++ [Tokens.Equals] ++ [q] ++ escape value ++ tail).
    rewrite (app_assoc k), (run_drained _ _ _ _ _ Hstart).
    by rewrite (run_drained _ _ _ _ _ Hopens), (run_drained _ _ _ _ _ Hv). }
  split; rewrite Hprefix; f_equal.
  - change ([q; Tokens.TagClose] ++ rest) with ([q] ++ [Tokens.TagClose] ++ rest).
    rewrite (run_drained _ _ _ _ _ (proj1 (Hend value))).
    by rewrite (run_emits st _ (ParseState.Text []) [Tokens.TagClose] rest
                  (OpenTagNode (mkTag name false {[k := value]}))).
  - apply (run_throws st _
             (ParseState.TagAttributeValue name ∅ k value true (Some q))
             [Tokens.BackSlash; c] rest).
    cbn [loop step]. rewrite Htruthy, orb_true_r.
    change (Tokens.BackSlash =? Tokens.BackSlash) with true. cbn [andb].
    cbn [loop step]. rewrite Htruthy, orb_true_r. unfold escapeChar.
    by rewrite (proj2 (Z.eqb_neq c 92) H92), (proj2 (Z.eqb_neq c 110) H110),
         (proj2 (Z.eqb_neq c 114) H114).
Qed.

Lemma escaped_attribute_value_witness :
  (is_quote true 39 = true
   /\ is_string (str "a") = true /\ is_name (str "a") = true
   /\ is_string (str "b") = true /\ is_name (str "b") = true
   /\ is_string [120; 92; 10; 121] = true /\ without 39 [120; 92; 10; 121] = true)
  /\ run true (ParseState.Text [])
       (str "<" ++ str "a" ++ str " " ++ str "b" ++ [Tokens.Equals; 39]
          ++ escape [120; 92; 10; 121] ++ [39; Tokens.TagClose] ++ [])
     = ([OpenTagNode (mkTag (str "a") false {[str "b" := [120; 92; 10; 121]]})],
        Exhausted).
Proof.
  assert (is_quote true 39 = true) as H0 by reflexivity.
  assert (is_string (str "a") = true) as H1 by reflexivity.
  assert (is_name (str "a") = true) as H2 by reflexivity.
  assert (is_string (str "b") = true) as H3 by reflexivity.
  assert (is_name (str "b") = true) as H4 by reflexivity.
  assert (is_string [120; 92; 10; 121] = true) as H5 by reflexivity.
  assert (without 39 [120; 92; 10; 121] = true) as H6 by reflexivity.
  assert (120 <> 92) as H7 by lia.
  assert (120 <> 110) as H8 by lia.
  assert (120 <> 114) as H9 by lia.
  split; [by repeat split|].
  rewrite (proj1 (escaped_attribute_value true 39 (str "a") (str "b")
                    [120; 92; 10; 121] [] [] 120 H0 H1 H2 H3 H4 H5 H6 H7 H8 H9)).
  vm_compute. reflexivity.
Defined.

(** X7: strict mode takes single-quoted values only.  In strict mode an
    attribute value whose first character is neither white space nor ['],
    a double quote included, makes the pull throw 'invalid attribute value
    starting character'. *)
Theorem strict_wants_single_quotes
    (name k pending rest : jsstring) (c : Z) :
  is_string name = true -> is_name name = true ->
  is_string k = true -> is_name k = true ->
  isWhiteSpace c = false ->
  c <> Tokens.SingleQuote ->
  run true (ParseState.Text pending)
    (str "<" ++ name ++ str " " ++ k ++ str "=" ++ [c] ++ rest)
  = flush pending ([], Failed (InvalidAttributeValueStartingCharacter c)).
Proof.
  intros Hstr Hname Hk Hkname Hws Hc.
  destruct (loop_tag_name true name Hstr Hname) as [Hopen _].
  assert (has_length name = true) as Hlen by (by destruct name).
  destruct (loop_attribute_start true name k ∅ Hk Hkname) as [Hstart _].
  change (str "<" ++ name ++ str " " ++ k ++ str "=" ++ [c] ++ rest)
    with (Tokens.TagOpen :: name ++ [32] ++ k ++ [Tokens.Equals] ++ [c] ++ rest).
  rewrite run_tag_open, (run_drained _ _ _ _ _ Hopen). cbn [app]. f_equal.
  rewrite (run_continue true (ParseState.TagName name) (ParseState.Tag name ∅)).
  2: { cbn [step]. by rewrite Hlen. }
  change (k ++ Tokens.Equals :: c :: rest)
    with (k ++ [Tokens.Equals] ++ [c] ++ rest).
  rewrite (app_assoc k), (run_drained _ _ _ _ _ Hstart).
  apply (run_throws true _
           (ParseState.TagAttributeValue name ∅ k [] false None) [c] rest).
  cbn [loop step has_length length Nat.eqb negb truthy orb opens_value].
  by rewrite Hws, (proj2 (Z.eqb_neq _ _) Hc).
Qed.

Lemma strict_wants_single_quotes_witness :
  (is_string (str "a") = true /\ is_name (str "a") = true
   /\ is_string (str "b") = true /\ is_name (str "b") = true
   /\ isWhiteSpace 34 = false /\ 34 <> Tokens.SingleQuote)
  /\ run true (ParseState.Text [])
       (str "<" ++ str "a" ++ str " " ++ str "b" ++ str "=" ++ [34] ++ str "c")
     = ([], Failed (InvalidAttributeValueStartingCharacter 34)).
Proof.
  assert (is_string (str "a") = true) as H1 by reflexivity.
  assert (is_name (str "a") = true) as H2 by reflexivity.
  assert (is_string (str "b") = true) as H3 by reflexivity.
  assert (is_name (str "b") = true) as H4 by reflexivity.
  assert (isWhiteSpace 34 = false) as H5 by reflexivity.
  assert (34 <> Tokens.SingleQuote) as H6 by discriminate.
  split; [by repeat split|].
  exact (strict_wants_single_quotes (str "a") (str "b") [] (str "c") 34
           H1 H2 H3 H4 H5 H6).
Defined.

(** ** Characters that are passed over *)

Lemma loop_tag_empty (st : bool) (tagName : jsstring) (m : Attributes)
    (junk : jsstring) :
  without Tokens.TagClose junk = true ->
  loop st (ParseState.TagEmpty tagName m) junk
  = Drained (ParseState.TagEmpty tagName m).
Proof.
  induction junk as [|c junk IH]; intros Hno; cbn [loop]; [done|].
  apply without_cons in Hno as [Hc Hno]. cbn [step]. rewrite Hc. by apply IH.
Qed.

(** X8: after the [/] of a self-closing tag everything up to the next [>] is
    passed over: [<name/ ... >] is read as the self-closing tag [<name/>]
    whatever stands between the [/] and the [>]. *)
Theorem self_closing_passes_over
    (st : bool) (name junk pending rest : jsstring) :
  is_string name = true -> is_name name = true ->
  without Tokens.TagClose junk = true ->
  run st (ParseState.Text pending)
    (str "<" ++ name ++ str "/" ++ junk ++ str ">" ++ rest)
  = flush pending
      (emit (OpenTagNode (mkTag name true ∅))
         (run st (ParseState.Text []) rest)).
Proof.
  intros Hstr Hname Hjunk.
  destruct (loop_tag_name st name Hstr Hname) as [Hopen _].
  assert (has_length name = true) as Hlen by (by destruct name).
  change (str "<" ++ name ++ str "/" ++ junk ++ str ">" ++ rest)
    with (Tokens.TagOpen :: name ++ [Tokens.Slash] ++ junk
            ++ [Tokens.TagClose] ++ rest).
  rewrite run_tag_open, (run_drained _ _ _ _ _ Hopen). cbn [app]. f_equal.
  rewrite (run_continue st _ (ParseState.TagEmpty name ∅)).
  2: { cbn [step]. by rewrite Hlen. }
  rewrite (run_drained _ _ _ _ _ (loop_tag_empty st name ∅ junk Hjunk)).
  by rewrite (run_emits st _ (ParseState.Text []) [Tokens.TagClose] rest
                (OpenTagNode (mkTag name true ∅))).
Qed.

Lemma self_closing_passes_over_witness :
  (is_string (str "br") = true /\ is_name (str "br") = true
   /\ without Tokens.TagClose (str " x='1' </") = true)
  /\ run true (ParseState.Text [])
       (str "<" ++ str "br" ++ str "/" ++ str " x='1' </" ++ str ">" ++ [])
     = ([OpenTagNode (mkTag (str "br") true ∅)], Exhausted).
Proof.
  assert (is_string (str "br") = true) as H1 by reflexivity.
  assert (is_name (str "br") = true) as H2 by reflexivity.
  assert (without Tokens.TagClose (str " x='1' </") = true) as H3 by reflexivity.
  split; [by repeat split|].
  rewrite (self_closing_passes_over true (str "br") (str " x='1' </") [] []
             H1 H2 H3).
  vm_compute. reflexivity.
Defined.

(** ** Writing and closing *)

(** X20: once [close] has returned, the parser is closed for good: every
    [write] throws 'parse is closed' and changes nothing, [close()] again is
    accepted and changes nothing, and [close(data)] with more data throws.
    The [close] itself appended its data, if any, to the buffer and touched
    neither the state nor the mode. *)
Theorem closed_for_good (p p' : Parser) (data : option jsstring) :
  close p data = inr p' ->
  closed p' = true
  /\ state p' = state p /\ strict p' = strict p
  /\ buffer p' = buffer p ++ default [] data
  /\ (forall more, write p' more = inl ParseIsClosed)
  /\ close p' None = inr p'
  /\ (forall more, more <> [] -> close p' (Some more) = inl ParseIsClosed).
Proof.
  destruct p as [s b c st]. intros H.
  assert (p' = mkParser s (b ++ default [] data) true st) as ->.
  { unfold close in H. cbn [default from_option id].
    destruct data as [[|u d]|];
      cbn [has_length length Nat.eqb negb bind state buffer closed strict] in H.
    - rewrite app_nil_r. by simplify_eq.
    - destruct c; [by rewrite write_closed in H|].
      destruct (fits (u :: d)) eqn:Hfits.
      + rewrite write_open in H by done.
        cbn [bind state buffer closed strict] in H. by simplify_eq.
      + by rewrite write_too_long in H.
    - rewrite app_nil_r. by simplify_eq. }
  unfold close, write. cbn [closed state buffer strict bind].
  repeat split; try done.
  intros more Hmore. by destruct more.
Qed.

Lemma closed_for_good_witness :
  close (mkParser (ParseState.Text []) (str "<a") false true) (Some (str ">"))
  = inr (mkParser (ParseState.Text []) (str "<a>") true true)
  /\ write (mkParser (ParseState.Text []) (str "<a>") true true) (str "x")
     = inl ParseIsClosed.
Proof.
  assert (close (mkParser (ParseState.Text []) (str "<a") false true)
            (Some (str ">"))
          = inr (mkParser (ParseState.Text []) (str "<a>") true true)) as H
    by reflexivity.
  split; [exact H|].
  destruct (closed_for_good _ _ _ H) as (_ & _ & _ & _ & Hwrite & _).
  exact (Hwrite (str "x")).
Defined.

(** ** The classifiers *)

(** X21: the classifiers are nested as the XML grammar has them.  A name start
    character is a name character; a name character is a valid character, is
    not white space, not a quotation mark and none of the delimiters [<],
    [>], [/], [=], [?], [!], backslash, [[] and []]; a white space character
    is a valid character; and a valid character is a code point up to
    U+10FFFF that is no surrogate. *)
Theorem classifiers_nested (c : Z) :
  (isNameStartChar c = true -> isNameChar c = true)
  /\ (isNameChar c = true ->
      isChar c = true /\ isWhiteSpace c = false /\ isQuotationMark c = false
      /\ c <> Tokens.TagOpen /\ c <> Tokens.TagClose /\ c <> Tokens.Slash
      /\ c <> Tokens.Equals /\ c <> Tokens.QuestionMark
      /\ c <> Tokens.ExclamationMark /\ c <> Tokens.BackSlash
      /\ c <> Tokens.LeftSquareBracket /\ c <> Tokens.RightSquareBracket)
  /\ (isWhiteSpace c = true -> isChar c = true)
  /\ (isChar c = true -> 0 <= c <= 0x10ffff /\ ~ 0xd800 <= c <= 0xdfff).
Proof.
  split; [apply name_start_is_name_char|].
  split; [apply name_char_facts|].
  split; intros H; classify.
Qed.

Lemma classifiers_nested_witness :
  isNameStartChar 97 = true /\ isNameChar 97 = true /\ isChar 97 = true.
Proof.
  assert (isNameStartChar 97 = true) as H by reflexivity.
  destruct (classifiers_nested 97) as (H1 & H2 & _).
  split; [exact H|]. split; [exact (H1 H)|]. exact (proj1 (H2 (H1 H))).
Defined.

(** The README's example of a parser that is fed in pieces. *)
Example readme_advanced_usage :
  parseStream [str "<hello>wor"; str "ld</hello>asdf"] permissive
  = inr ([OpenTagNode (mkTag (str "hello") false ∅);
          TextNode (str "world");
          CloseTagNode (str "hello");
          TextNode (str "asdf")], Exhausted).
Proof. vm_compute. reflexivity. Qed.
